(** * AHMADS-TTS: the audio buffer pipeline and the playback controller

    A shallow embedding of [src/utils/audioHelpers.ts] (PCM decoder, WAV
    encoder), of the playback handlers of [src/components/AudioPlayer.tsx]
    and of [handleGenerate] of the application component, followed by the
    properties the specification states about them.

    Numbers.  A JavaScript number that holds a sample or a time is modelled
    by a rational [Q].  Audio samples are [Float32Array] elements, that is
    dyadic rationals with a 24-bit significand; every double-precision
    operation the encoder applies to such a sample in [-1, 1] (the two
    comparisons of the clamp, the sum with 0.5 that is only compared with
    zero, the product with 32768 or with 32767) is exact, and so is the
    quotient of a 16-bit integer by 32768 in the decoder.  The times of
    the player are rationals too: the rounding of its double-precision
    products and sums is not modelled, the comparisons that guard the
    cursor are those of the source.  NaN and the infinities are outside
    the model.  Counters, indices and integer values are [nat] or [Z],
    with the wrap-around of each conversion written out. *)

From Stdlib Require Import ZArith QArith Qround Qabs List Lia Lqa Bool.
From Stdlib Require Import String Ascii DecimalString.
Import ListNotations.

Local Open Scope Z_scope.

(** ** Results of fallible calls

    The exceptions of the host ([RangeError], [NotSupportedError],
    [InvalidCharacterError]), an error of the speech service, and the two
    errors that the specification names ([UnsupportedFormatError],
    [MalformedAudioError]); nothing in the source raises the last one. *)

Inductive exception : Type :=
| RangeError
| NotSupportedError
| InvalidCharacterError
| UnsupportedFormatError
| MalformedAudioError
| ServiceError (message : string).

Inductive result (A : Type) : Type :=
| Ok (a : A)
| Err (e : exception).
Arguments Ok {A} a.
Arguments Err {A} e.

Definition bind {A B : Type} (r : result A) (k : A -> result B) : result B :=
  match r with
  | Ok a => k a
  | Err e => Err e
  end.

Notation "x <- r ;; k" := (bind r (fun x => k))
  (at level 61, r at next level, right associativity).

(** ** JavaScript number conversions *)

Module JS.

(** Truncation toward zero of a rational (the integer part kept by
    ToInt32 and by the WebIDL integer conversions). *)
Definition trunc (q : Q) : Z := Z.quot (Qnum q) (Z.pos (Qden q)).

Definition ToUint8 (z : Z) : Z := z mod 2 ^ 8.
Definition ToUint16 (z : Z) : Z := z mod 2 ^ 16.
Definition ToUint32 (z : Z) : Z := z mod 2 ^ 32.
Definition ToInt16 (z : Z) : Z := (z + 2 ^ 15) mod 2 ^ 16 - 2 ^ 15.
Definition ToInt32 (z : Z) : Z := (z + 2 ^ 31) mod 2 ^ 32 - 2 ^ 31.

(** [x | 0] *)
Definition bitor0 (q : Q) : Z := ToInt32 (trunc q).

Definition Qlt_bool (a b : Q) : bool := negb (Qle_bool b a).

Definition Math_min (a b : Q) : Q := if Qlt_bool b a then b else a.
Definition Math_max (a b : Q) : Q := if Qlt_bool a b then b else a.

End JS.

(** ** ArrayBuffer and DataView

    A byte is a [Z] in [0, 256); an [ArrayBuffer] is the list of its
    bytes.  The [DataView] setters raise [RangeError] when the bytes they
    write do not fit in the buffer. *)

Module DataView.

Definition ArrayBuffer (n : nat) : list Z := repeat 0 n.

Definition store (view : list Z) (byteOffset : nat) (bs : list Z)
  : result (list Z) :=
  if (byteOffset + Datatypes.length bs <=? Datatypes.length view)%nat
  then Ok (firstn byteOffset view ++ bs
           ++ skipn (byteOffset + Datatypes.length bs) view)
  else Err RangeError.

(** Little-endian bytes of an unsigned value of [n] bytes. *)
Fixpoint le_bytes (n : nat) (v : Z) : list Z :=
  match n with
  | O => []
  | S n' => v mod 256 :: le_bytes n' (v / 256)
  end.

Fixpoint le_value (bs : list Z) : Z :=
  match bs with
  | [] => 0
  | b :: bs' => b + 256 * le_value bs'
  end.

Definition setUint16 (view : list Z) (byteOffset : nat) (value : Z) :=
  store view byteOffset (le_bytes 2 (JS.ToUint16 value)).
Definition setUint32 (view : list Z) (byteOffset : nat) (value : Z) :=
  store view byteOffset (le_bytes 4 (JS.ToUint32 value)).
Definition setInt16 (view : list Z) (byteOffset : nat) (value : Z) :=
  store view byteOffset (le_bytes 2 (JS.ToUint16 value)).

Definition load (view : list Z) (byteOffset n : nat) : list Z :=
  firstn n (skipn byteOffset view).

Definition getUint16 (view : list Z) (byteOffset : nat) : Z :=
  le_value (load view byteOffset 2).
Definition getUint32 (view : list Z) (byteOffset : nat) : Z :=
  le_value (load view byteOffset 4).
Definition getInt16 (view : list Z) (byteOffset : nat) : Z :=
  JS.ToInt16 (le_value (load view byteOffset 2)).

End DataView.

(** ** AudioBuffer

    The host object: [length] frames in each of [numberOfChannels]
    channels.  Sample rates are whole numbers of hertz (24000 in this
    application). *)

Record AudioBuffer : Type := mkAudioBuffer {
  numberOfChannels : nat;
  length : nat;
  sampleRate : Z;
  channelData : list (list Q)
}.

Definition getChannelData (b : AudioBuffer) (channel : nat) : list Q :=
  nth channel (channelData b) [].

(** What the host guarantees of every [AudioBuffer]. *)
Definition wf_buffer (b : AudioBuffer) : Prop :=
  Datatypes.length (channelData b) = numberOfChannels b /\
  Forall (fun c => Datatypes.length c = length b) (channelData b).

(** [buffer.duration] *)
Definition AudioBuffer_duration (b : AudioBuffer) : Q :=
  inject_Z (Z.of_nat (length b)) / inject_Z (sampleRate b).

(** ** [decodeAudioData] (audioHelpers.ts) *)

(** A [Uint8Array]: a window of [byteLength] bytes at [byteOffset] of its
    underlying [buffer]. *)
Record Uint8Array : Type := mkUint8Array {
  buffer : list Z;
  byteOffset : nat;
  byteLength : nat
}.

Definition wf_view (data : Uint8Array) : Prop :=
  (byteOffset data + byteLength data <= Datatypes.length (buffer data))%nat.

(** [new Int16Array(buffer, byteOffset, length)]: the element values, read
    in the platform's byte order (little-endian).  The constructor
    truncates a fractional [length], which is the division at the call. *)
Definition Int16Array (buffer : list Z) (byteOffset length : nat)
  : result (list Z) :=
  if negb (byteOffset mod 2 =? 0)%nat then Err RangeError
  else if (Datatypes.length buffer <? byteOffset + 2 * length)%nat
       then Err RangeError
       else Ok (map (fun i => DataView.getInt16 buffer (byteOffset + 2 * i))
                    (seq 0 length)).

(** [dataInt16[i] / 32768.0] *)
Definition int16_to_float (v : Z) : Q := v # 32768.

(** [channelData[i] = v]: a write past the end of a typed array is
    ignored. *)
Definition typed_set (channelData : list Q) (i : nat) (v : Q) : list Q :=
  if (i <? Datatypes.length channelData)%nat
  then firstn i channelData ++ v :: skipn (S i) channelData
  else channelData.

(** The inner loop: [for (i = 0; i < dataInt16.length; i++)]. *)
Definition fill_channel (dataInt16 : list Z) (channelData : list Q) : list Q :=
  fold_left
    (fun cd i => typed_set cd i (int16_to_float (nth i dataInt16 0)))
    (seq 0 (Datatypes.length dataInt16)) channelData.

(** The channel's array is shared with the buffer: writing it updates
    the buffer's channel. *)
Definition set_channel (chans : list (list Q)) (channel : nat) (c : list Q)
  : list (list Q) :=
  firstn channel chans ++ c :: skipn (S channel) chans.

(** The outer loop: [for (channel = 0; channel < numChannels; channel++)]. *)
Definition fill_buffer (numChannels : nat) (dataInt16 : list Z)
  (b : AudioBuffer) : AudioBuffer :=
  fold_left
    (fun b channel =>
       mkAudioBuffer (numberOfChannels b) (length b) (sampleRate b)
         (set_channel (channelData b) channel
            (fill_channel dataInt16 (getChannelData b channel))))
    (seq 0 numChannels) b.

(** The host's [createBuffer].  [BaseAudioContext.createBuffer] is the
    browser's.  The Web Audio API requires it to throw
    [NotSupportedError] when an argument is negative, zero or outside its
    nominal range, and to return a zero-filled buffer otherwise.  The
    nominal ranges (how many channels, which sample rates) are the
    implementation's: they are the parameter [host_supports]. *)

Section Host.

Variable host_supports : nat -> nat -> Z -> bool.

Definition createBuffer (numberOfChannels length : nat) (sampleRate : Z)
  : result AudioBuffer :=
  if (numberOfChannels =? 0)%nat || (length =? 0)%nat || (sampleRate <=? 0)
     || negb (host_supports numberOfChannels length sampleRate)
  then Err NotSupportedError
  else Ok (mkAudioBuffer numberOfChannels length sampleRate
             (repeat (repeat 0%Q length) numberOfChannels)).

(** The frame count passed to [createBuffer] is the quotient
    [dataInt16.length / numChannels], which the host truncates to an
    integer. *)
Definition decodeAudioData (data : Uint8Array) (sampleRate : Z)
  (numChannels : nat) : result AudioBuffer :=
  dataInt16 <- Int16Array (buffer data) (byteOffset data)
                 (byteLength data / 2) ;;
  buffer <- createBuffer numChannels
              (Datatypes.length dataInt16 / numChannels) sampleRate ;;
  Ok (fill_buffer numChannels dataInt16 buffer).

End Host.

(** ** [audioBufferToWav] (audioHelpers.ts)

    The function's locals [view], [pos] and [offset] are shared by the
    body and by its helpers [setUint16] and [setUint32]: they are the
    state threaded through the writer. *)

Record writer : Type := mkWriter {
  view : list Z;
  pos : nat;
  offset : nat
}.

Definition setUint16 (data : Z) (w : writer) : result writer :=
  v <- DataView.setUint16 (view w) (pos w) data ;;
  Ok (mkWriter v (pos w + 2) (offset w)).

Definition setUint32 (data : Z) (w : writer) : result writer :=
  v <- DataView.setUint32 (view w) (pos w) data ;;
  Ok (mkWriter v (pos w + 4) (offset w)).

(** Lines 82 and 84: the clamp, then the scaling and [| 0]. *)
Definition quantize (x : Q) : Z :=
  let sample := JS.Math_max (-1) (JS.Math_min 1 x) in
  JS.bitor0 (if JS.Qlt_bool ((1 # 2) + sample) 0
             then sample * 32768
             else sample * 32767)%Q.

(** The body of the [for] loop.  A read past the end of a channel gives
    [undefined], which the clamp turns into NaN and [| 0] into 0: the
    default of [nth] is quantized to the same 0. *)
Definition write_sample (channels : list (list Q)) (i : nat) (w : writer)
  : result writer :=
  let sample := quantize (nth (pos w) (nth i channels []) 0%Q) in
  v <- DataView.setInt16 (view w) (44 + offset w) sample ;;
  Ok (mkWriter v (pos w) (offset w + 2)).

Fixpoint for_each {S : Type} (body : nat -> S -> result S) (l : list nat)
  (s : S) : result S :=
  match l with
  | [] => Ok s
  | i :: l' => s' <- body i s ;; for_each body l' s'
  end.

(** [while (pos < buffer.length) { for (...) {...}; pos++ }].  [pos] grows
    by one in each round, so [fuel = buffer.length] rounds are enough. *)
Fixpoint write_frames (fuel : nat) (channels : list (list Q))
  (numOfChan buffer_length : nat) (w : writer) : result writer :=
  match fuel with
  | O => Ok w
  | S fuel' =>
      if (pos w <? buffer_length)%nat
      then w' <- for_each (write_sample channels) (seq 0 numOfChan) w ;;
           write_frames fuel' channels numOfChan buffer_length
             (mkWriter (view w') (pos w' + 1) (offset w'))
      else Ok w
  end.

Definition audioBufferToWav (buffer : AudioBuffer) : result (list Z) :=
  let numOfChan := numberOfChannels buffer in
  let buffer_length := length buffer in
  let length := (buffer_length * numOfChan * 2 + 44)%nat in
  let w := mkWriter (DataView.ArrayBuffer length) 0 0 in
  w <- setUint32 0x46464952 w ;;
  w <- setUint32 (Z.of_nat length - 8) w ;;
  w <- setUint32 0x45564157 w ;;
  w <- setUint32 0x20746d66 w ;;
  w <- setUint32 16 w ;;
  w <- setUint16 1 w ;;
  w <- setUint16 (Z.of_nat numOfChan) w ;;
  w <- setUint32 (sampleRate buffer) w ;;
  w <- setUint32 (sampleRate buffer * 2 * Z.of_nat numOfChan) w ;;
  w <- setUint16 (Z.of_nat numOfChan * 2) w ;;
  w <- setUint16 16 w ;;
  w <- setUint32 0x61746164 w ;;
  w <- setUint32 (Z.of_nat length - Z.of_nat (pos w) - 4) w ;;
  let channels :=
    map (getChannelData buffer) (seq 0 (numberOfChannels buffer)) in
  w <- write_frames buffer_length channels numOfChan buffer_length w ;;
  Ok (view w).

(** The bytes [audioBufferToWav] produces, written out: the 44-byte
    header, then the frames the loop writes, then what is left of the
    zero-filled buffer. *)
Definition wav_header (b : AudioBuffer) : list Z :=
  let numOfChan := Z.of_nat (numberOfChannels b) in
  let length := Z.of_nat (length b * numberOfChannels b * 2 + 44) in
  DataView.le_bytes 4 (JS.ToUint32 0x46464952)
  ++ DataView.le_bytes 4 (JS.ToUint32 (length - 8))
  ++ DataView.le_bytes 4 (JS.ToUint32 0x45564157)
  ++ DataView.le_bytes 4 (JS.ToUint32 0x20746d66)
  ++ DataView.le_bytes 4 (JS.ToUint32 16)
  ++ DataView.le_bytes 2 (JS.ToUint16 1)
  ++ DataView.le_bytes 2 (JS.ToUint16 numOfChan)
  ++ DataView.le_bytes 4 (JS.ToUint32 (sampleRate b))
  ++ DataView.le_bytes 4 (JS.ToUint32 (sampleRate b * 2 * numOfChan))
  ++ DataView.le_bytes 2 (JS.ToUint16 (numOfChan * 2))
  ++ DataView.le_bytes 2 (JS.ToUint16 16)
  ++ DataView.le_bytes 4 (JS.ToUint32 0x61746164)
  ++ DataView.le_bytes 4 (JS.ToUint32 (length - 40 - 4)).

Definition sample_bytes (x : Q) : list Z :=
  DataView.le_bytes 2 (JS.ToUint16 (quantize x)).

Definition frame_bytes (b : AudioBuffer) (p : nat) : list Z :=
  flat_map (fun i => sample_bytes (nth p (getChannelData b i) 0%Q))
           (seq 0 (numberOfChannels b)).

Definition wav_data (b : AudioBuffer) : list Z :=
  flat_map (frame_bytes b) (seq 44 (length b - 44))
  ++ repeat 0 (2 * numberOfChannels b * Nat.min 44 (length b)).

(** ** The WAV decoder *)

(** Modelled from the spec: the WAV Decoder of section 4.3, which the
    repository does not contain (history replay hands the bytes to the
    browser's own decoder).  It validates the [RIFF], [WAVE], [fmt ] and
    [data] markers of the canonical 44-byte header, fails with
    [UnsupportedFormatError] unless the format tag is PCM and the depth is
    16 bits, and de-quantizes with the inverse mapping of section 4.1
    (division by 32768), de-interleaving in channel-minor order. *)
Definition wavDecode (bytes : list Z) : result AudioBuffer :=
  if negb ((DataView.getUint32 bytes 0 =? 0x46464952)
           && (DataView.getUint32 bytes 8 =? 0x45564157)
           && (DataView.getUint32 bytes 12 =? 0x20746d66)
           && (DataView.getUint32 bytes 36 =? 0x61746164))
  then Err UnsupportedFormatError
  else if negb ((DataView.getUint16 bytes 20 =? 1)
                && (DataView.getUint16 bytes 34 =? 16))
  then Err UnsupportedFormatError
  else
    let channels := Z.to_nat (DataView.getUint16 bytes 22) in
    let rate := DataView.getUint32 bytes 24 in
    let frames := (Z.to_nat (DataView.getUint32 bytes 40) / (channels * 2))%nat in
    Ok (mkAudioBuffer channels frames rate
          (map (fun c =>
                  map (fun f =>
                         int16_to_float
                           (DataView.getInt16 bytes
                              (44 + 2 * (f * channels + c))))
                      (seq 0 frames))
               (seq 0 channels))).

(** The quantization rule as section 4.2 words it: the sign of the clamped
    sample selects the factor. *)
Definition spec_quantize (x : Q) : Z :=
  let clamped := JS.Math_max (-1) (JS.Math_min 1 x) in
  JS.trunc (if JS.Qlt_bool clamped 0
            then clamped * 32768
            else clamped * 32767)%Q.

(** The de-interleaving of section 4.1: channel [c] holds the interleaved
    samples at the positions congruent to [c] modulo the channel count. *)
Definition spec_deinterleave (dataInt16 : list Z) (numChannels c : nat)
  : list Q :=
  map (fun f => int16_to_float (nth (f * numChannels + c) dataInt16 0))
      (seq 0 (Datatypes.length dataInt16 / numChannels)).

(** ** The playback controller (AudioPlayer.tsx)

    One record holds what the handlers of a mounted player read and
    write: the props ([audioBuffer], of which only the duration matters
    here, [speed], [pitch]), the React state ([isPlaying], [currentTime],
    [duration]) and the refs.  The player is modelled with a buffer
    loaded: without one the component renders no control.  A handler is a
    function from the record at the time of the call to the record once
    React has applied the state updates the handler queued.  The
    [AudioContext] is represented by its clock [currentTime]; it is taken
    to be running (no [resume] is awaited). *)

Module Player.

Record SourceNode : Type := mkSource {
  start_offset : Q;
  onended_isPlaying : bool;
  stopped : bool;
  connected : bool
}.

Record t : Type := mk {
  audioBuffer_duration : Q;
  speed : Q;
  pitch : Q;
  isPlaying : bool;
  currentTime : Q;
  duration : Q;
  audioContext : option Q;
  sourceNode : option SourceNode;
  startTime : Q;
  pausedTime : Q
}.

(** The component as first rendered: [useState] and [useRef] defaults. *)
Definition initial (audioBuffer_duration speed pitch : Q) : t :=
  mk audioBuffer_duration speed pitch false 0 0 None None 0 0.

(** [sourceNodeRef.current.stop(); sourceNodeRef.current.disconnect()] *)
Definition stop_source (disconnect : bool) (n : SourceNode) : SourceNode :=
  mkSource (start_offset n) (onended_isPlaying n) true
    (if disconnect then false else connected n).

(** [playAudio].  [rendered_isPlaying] is the [isPlaying] of the render
    whose closure is called: it is what the [onended] handler registered
    here will read.  A context created here starts its clock at 0. *)
Definition playAudio (rendered_isPlaying : bool) (s : t) : t :=
  let now := match audioContext s with Some c => c | None => 0%Q end in
  let source := mkSource (pausedTime s) rendered_isPlaying false true in
  mk (audioBuffer_duration s) (speed s) (pitch s)
     true (currentTime s) (duration s)
     (Some now) (Some source) now (pausedTime s).

(** [source.onended], for a handler that captured [captured] as
    [isPlaying]. *)
Definition onended (captured : bool) (s : t) : t :=
  if captured
  then mk (audioBuffer_duration s) (speed s) (pitch s)
          false 0 (duration s)
          (audioContext s) (sourceNode s) (startTime s) 0
  else s.

Definition pauseAudio (s : t) : t :=
  match sourceNode s, audioContext s with
  | Some n, Some now =>
      let wallTimeElapsed := (now - startTime s)%Q in
      let paused := (pausedTime s + wallTimeElapsed * speed s)%Q in
      let paused :=
        if JS.Qlt_bool (audioBuffer_duration s) paused then 0%Q else paused in
      mk (audioBuffer_duration s) (speed s) (pitch s)
         false (currentTime s) (duration s)
         (audioContext s) (Some (stop_source false n)) (startTime s) paused
  | _, _ => s
  end.

(** [stopAudio].  [stop()] on a source that has already stopped may
    throw; the handler catches it. *)
Definition stopAudio (s : t) : t :=
  mk (audioBuffer_duration s) (speed s) (pitch s)
     false 0 (duration s)
     (audioContext s) (option_map (stop_source true) (sourceNode s))
     (startTime s) 0.

(** One run of [updateProgress], the animation-frame callback of the
    progress effect. *)
Definition updateProgress (s : t) : t :=
  if isPlaying s then
    match audioContext s with
    | Some now =>
        let wallTimeElapsed := (now - startTime s)%Q in
        let bufferPlayed := (pausedTime s + wallTimeElapsed * speed s)%Q in
        if JS.Qlt_bool bufferPlayed (duration s)
        then mk (audioBuffer_duration s) (speed s) (pitch s)
                true (JS.Math_min bufferPlayed (duration s)) (duration s)
                (audioContext s) (sourceNode s) (startTime s) (pausedTime s)
        else mk (audioBuffer_duration s) (speed s) (pitch s)
                false 0 (duration s)
                (audioContext s) (sourceNode s) (startTime s) 0
    | None => s
    end
  else s.

(** The effect that runs when the buffer is set. *)
Definition load (autoPlay : bool) (s : t) : t :=
  let s' := mk (audioBuffer_duration s) (speed s) (pitch s)
               (isPlaying s) 0 (audioBuffer_duration s)
               (audioContext s) (sourceNode s) (startTime s) 0 in
  if autoPlay then playAudio (isPlaying s) s' else s'.

(** The restart button: [() => { stopAudio(); playAudio(); }]. *)
Definition restart (s : t) : t := playAudio (isPlaying s) (stopAudio s).

(** The clock of the audio context advances by [dt] seconds. *)
Definition advance (dt : Q) (s : t) : t :=
  mk (audioBuffer_duration s) (speed s) (pitch s)
     (isPlaying s) (currentTime s) (duration s)
     (option_map (fun now => now + dt)%Q (audioContext s)) (sourceNode s)
     (startTime s) (pausedTime s).

(** The parent passes a new [speed]. *)
Definition set_speed (r : Q) (s : t) : t :=
  mk (audioBuffer_duration s) r (pitch s)
     (isPlaying s) (currentTime s) (duration s)
     (audioContext s) (sourceNode s) (startTime s) (pausedTime s).

Inductive event : Type :=
| Play
| Pause
| Stop
| Restart
| Tick
| Ended (captured : bool)
| Advance (dt : Q)
| SetSpeed (r : Q).

Definition step (s : t) (e : event) : t :=
  match e with
  | Play => playAudio (isPlaying s) s
  | Pause => pauseAudio s
  | Stop => stopAudio s
  | Restart => restart s
  | Tick => updateProgress s
  | Ended captured => onended captured s
  | Advance dt => advance dt s
  | SetSpeed r => set_speed r s
  end.

(** Wall-clock advances are non-negative and rates lie in [0.5, 2.0]. *)
Definition event_ok (e : event) : Prop :=
  match e with
  | Advance dt => (0 <= dt)%Q
  | SetSpeed r => (1 # 2 <= r /\ r <= 2)%Q
  | _ => True
  end.

Definition run (s : t) (es : list event) : t := fold_left step es s.

(** The three states of the specification, read off the record: the
    code keeps no label, a session that is not playing is Stopped when
    its cursor is 0 and Paused otherwise. *)
Inductive label : Type := Stopped | Playing | Paused.

Definition state (s : t) : label :=
  if isPlaying s then Playing
  else if Qeq_bool (pausedTime s) 0 then Stopped else Paused.

(** One animation frame [dt] seconds after the previous one. *)
Definition frame (s : t) (dt : Q) : t := updateProgress (advance dt s).

(** The animation frames that follow one another [dts] seconds apart. *)
Definition frames (s : t) (dts : list Q) : t := fold_left frame dts s.

Definition total (dts : list Q) : Q := fold_right Qplus 0%Q dts.

(** The component mounted with a buffer of [d] seconds. *)
Definition mounted (autoPlay : bool) (d speed pitch : Q) : t :=
  load autoPlay (initial d speed pitch).

(** Section 4.4 as the claim words it: a pause while Playing leaves the
    cursor at its old value plus the elapsed wall-clock time multiplied
    by the rate. *)
Definition pause_adds_elapsed (s : t) : Prop :=
  isPlaying s = true ->
  forall now, audioContext s = Some now ->
  pausedTime (pauseAudio s)
  == pausedTime s + (now - startTime s) * speed s.

(** A one-second buffer played at rate 1: a frame is drawn 995 ms after
    the start, and the user pauses 10 ms later. *)
Definition late_pause : t :=
  advance (1 # 100) (frame (playAudio false (mounted false 1 1 0)) (199 # 200)).

End Player.

(** What every reachable record satisfies: the cursor lies in the
    buffer, the rate is not negative, the anchor is not in the future
    and the buffer is the one that was loaded. *)
Definition inv (d : Q) (s : Player.t) : Prop :=
  Player.audioBuffer_duration s = d /\
  (0 <= Player.speed s)%Q /\
  (0 <= Player.pausedTime s <= d)%Q /\
  (forall now, Player.audioContext s = Some now ->
               (Player.startTime s <= now)%Q).

(** ** The application component: [handleGenerate] *)

Inductive VoiceName : Type := Puck | Charon | Kore | Fenrir | Zephyr.

Module App.

Record HistoryItem : Type := mkItem {
  id : string;
  item_text : string;
  voice : VoiceName;
  timestamp : Z;
  audioBlob : list Z;
  duration : Q;
  item_speed : Q;
  item_pitch : Q
}.

Record t : Type := mk {
  text : string;
  selectedVoice : VoiceName;
  speed : Q;
  pitch : Q;
  isLoading : bool;
  error : option string;
  currentAudioBuffer : option AudioBuffer;
  history : list HistoryItem
}.

(** What one call of [handleGenerate] obtains from outside the
    repository: the speech service ([generateSpeech] either returns the
    base64 text or throws), the browser's [atob] (the character codes of
    the binary string, or [InvalidCharacterError]), the [AudioContext]
    constructor, [crypto.randomUUID()] and [Date.now()]. *)
Record world : Type := mkWorld {
  generateSpeech : string -> VoiceName -> result string;
  atob : string -> result (list Z);
  newAudioContext : result unit;
  randomUUID : string;
  Date_now : Z;
  host_supports : nat -> nat -> Z -> bool
}.

(** The characters [String.prototype.trim] removes, among the character
    codes below 256 (a character of the model is one such code). *)
Definition is_white (c : ascii) : bool :=
  let n := nat_of_ascii c in
  ((9 <=? n) && (n <=? 13) || (n =? 32) || (n =? 160))%nat.

Fixpoint all_white (s : string) : bool :=
  match s with
  | EmptyString => true
  | String c s' => is_white c && all_white s'
  end.

(** [!text.trim()] *)
Definition trim_is_empty (s : string) : bool := all_white s.

(** [decodeBase64] (audioHelpers.ts): each byte is a character code of
    [atob]'s result, stored in a fresh [Uint8Array]. *)
Definition decodeBase64 (w : world) (base64 : string) : result Uint8Array :=
  binaryString <- atob w base64 ;;
  let bytes := map JS.ToUint8 binaryString in
  Ok (mkUint8Array bytes 0 (Datatypes.length bytes)).

(** [err.message || "Failed to generate speech. Please try again."].
    The message of the service error is the one [generateSpeech] threw;
    the text a host exception carries is the host's own, and the model
    puts the name of the exception in its place. *)
Definition message (e : exception) : string :=
  match e with
  | ServiceError m =>
      if (String.length m =? 0)%nat
      then "Failed to generate speech. Please try again."%string
      else m
  | RangeError => "RangeError"%string
  | NotSupportedError => "NotSupportedError"%string
  | InvalidCharacterError => "InvalidCharacterError"%string
  | UnsupportedFormatError => "UnsupportedFormatError"%string
  | MalformedAudioError => "MalformedAudioError"%string
  end.

(** The [catch] and [finally] blocks, entered with the state the [try]
    block had reached. *)
Definition failed (s : t) (e : exception) : t :=
  mk (text s) (selectedVoice s) (speed s) (pitch s)
     false (Some (message e)) (currentAudioBuffer s) (history s).

Definition set_buffer (b : option AudioBuffer) (s : t) : t :=
  mk (text s) (selectedVoice s) (speed s) (pitch s)
     (isLoading s) (error s) b (history s).

Definition handleGenerate (w : world) (s : t) : t :=
  if trim_is_empty (text s) then s
  else
    let s := mk (text s) (selectedVoice s) (speed s) (pitch s)
                true None None (history s) in
    match generateSpeech w (text s) (selectedVoice s) with
    | Err e => failed s e
    | Ok base64Audio =>
    match decodeBase64 w base64Audio with
    | Err e => failed s e
    | Ok audioBytes =>
    match newAudioContext w with
    | Err e => failed s e
    | Ok _ =>
    match decodeAudioData (host_supports w) audioBytes 24000 1 with
    | Err e => failed s e
    | Ok audioBuffer =>
        let s := set_buffer (Some audioBuffer) s in
        match audioBufferToWav audioBuffer with
        | Err e => failed s e
        | Ok wavBlob =>
            let newItem :=
              mkItem (randomUUID w)
                (substring 0 60 (text s)
                 ++ (if (60 <? String.length (text s))%nat
                     then "..." else ""))%string
                (selectedVoice s) (Date_now w) wavBlob
                (AudioBuffer_duration audioBuffer) (speed s) (pitch s) in
            mk (text s) (selectedVoice s) (speed s) (pitch s)
               false (error s) (currentAudioBuffer s)
               (newItem :: history s)
        end
    end end end end.

(** The step at which a generation attempt fails, if it does: the
    speech-synthesis call, the base64 decoding or the PCM decoding. *)
Inductive failure : Type := SynthesisFails | Base64Fails | PcmDecodeFails.

Definition fails_at (w : world) (s : t) (f : failure) : Prop :=
  match f with
  | SynthesisFails =>
      exists e, generateSpeech w (text s) (selectedVoice s) = Err e
  | Base64Fails =>
      exists b64 e,
        generateSpeech w (text s) (selectedVoice s) = Ok b64 /\
        decodeBase64 w b64 = Err e
  | PcmDecodeFails =>
      exists b64 bytes e,
        generateSpeech w (text s) (selectedVoice s) = Ok b64 /\
        decodeBase64 w b64 = Ok bytes /\
        decodeAudioData (host_supports w) bytes 24000 1 = Err e
  end.

End App.

(** ** The statements of the specification, formalised *)

(** A valid Sample Buffer (section 3): at least one channel, every
    channel as long as the buffer, every sample in [-1, 1]; and a
    buffer whose sizes fit the 32-bit and 16-bit fields of the header. *)
Definition valid_buffer (b : AudioBuffer) : Prop :=
  wf_buffer b /\
  (1 <= numberOfChannels b)%nat /\
  Forall (Forall (fun x => -1 <= x <= 1)%Q) (channelData b).

Definition fits_header (b : AudioBuffer) : Prop :=
  Z.of_nat (numberOfChannels b) < 2 ^ 16 /\
  0 <= sampleRate b < 2 ^ 32 /\
  Z.of_nat (length b * numberOfChannels b * 2 + 44) < 2 ^ 32.

(** Sections 4.2 and 8 as worded: every sample of the buffer, quantized
    by the sign rule, is the 16-bit integer of its slot in the data
    chunk. *)
Definition encodes_by_sign_rule (b : AudioBuffer) : Prop :=
  exists out,
    audioBufferToWav b = Ok out /\
    forall p i, (p < length b)%nat -> (i < numberOfChannels b)%nat ->
      DataView.getInt16 out (44 + 2 * (p * numberOfChannels b + i))
      = spec_quantize (nth p (getChannelData b i) 0%Q).

(** The round trip of section 8 with tolerance [tol]. *)
Definition roundtrip_within (tol : Q) (b : AudioBuffer) : Prop :=
  exists out b',
    audioBufferToWav b = Ok out /\ wavDecode out = Ok b' /\
    length b' = length b /\
    numberOfChannels b' = numberOfChannels b /\
    sampleRate b' = sampleRate b /\
    forall c f, (c < numberOfChannels b)%nat -> (f < length b)%nat ->
      (Qabs (nth f (getChannelData b c) 0 - nth f (getChannelData b' c) 0)
       <= tol)%Q.

(** The 16-bit samples of a byte window, in order. *)
Definition samples_of (data : Uint8Array) : list Z :=
  map (fun i => DataView.getInt16 (buffer data) (byteOffset data + 2 * i))
      (seq 0 (byteLength data / 2)).

(** Section 4.1 as worded: for a length that is a multiple of
    [2 * channelCount], the decoder succeeds and channel [c] holds the
    interleaved samples at the positions congruent to [c]. *)
Definition decodes_deinterleaved (host_supports : nat -> nat -> Z -> bool)
  (data : Uint8Array) (rate : Z) (ch : nat) : Prop :=
  (byteLength data mod (2 * ch) = 0)%nat ->
  exists b,
    decodeAudioData host_supports data rate ch = Ok b /\
    forall c, (c < ch)%nat ->
      getChannelData b c = spec_deinterleave (samples_of data) ch c.

(** Sections 4.1 and 8 as worded: a length that is not a multiple of
    [2 * channelCount] is refused with [MalformedAudioError]. *)
Definition rejects_partial_frames (host_supports : nat -> nat -> Z -> bool)
  (data : Uint8Array) (rate : Z) (ch : nat) : Prop :=
  (byteLength data mod (2 * ch) <> 0)%nat ->
  decodeAudioData host_supports data rate ch = Err MalformedAudioError.

(** Section 8 as worded: a zero-length input gives a zero-frame buffer. *)
Definition empty_gives_empty (host_supports : nat -> nat -> Z -> bool)
  (data : Uint8Array) (rate : Z) (ch : nat) : Prop :=
  byteLength data = 0%nat ->
  exists b,
    decodeAudioData host_supports data rate ch = Ok b /\ length b = 0%nat.

(** ** Inputs used in examples *)

(** Forty-five mono frames at 24 kHz, all equal to [x]. *)
Definition constant_buffer (x : Q) : AudioBuffer :=
  mkAudioBuffer 1 45 24000 [repeat x 45].

(** A host without limits of its own. *)
Definition any_host : nat -> nat -> Z -> bool := fun _ _ _ => true.

(** [new Uint8Array(len)] filled with [bytes], as [decodeBase64] builds
    it. *)
Definition Uint8Array_of (bytes : list Z) : Uint8Array :=
  mkUint8Array bytes 0 (Datatypes.length bytes).

(** Two stereo frames: the samples 1, 2, 3, 4 in interleaved order. *)
Definition stereo_bytes : Uint8Array := Uint8Array_of [1; 0; 2; 0; 3; 0; 4; 0].

(** Three bytes of mono audio: one sample and a stray byte. *)
Definition three_bytes : Uint8Array := Uint8Array_of [1; 2; 3].

(** Scenario B of section 8: the mono buffer [1.0, -1.0, 0.0]. *)
Definition scenario_B : AudioBuffer :=
  mkAudioBuffer 1 3 24000 [[1; -1; 0]%Q].

(** Forty-six mono frames at 24 kHz: 1.0, forty-three zeros, -1.0 and
    0.5. *)
Definition two_ends : AudioBuffer :=
  mkAudioBuffer 1 46 24000
    [1%Q :: repeat 0%Q 43 ++ [(-1)%Q; (1 # 2)%Q]].

(** A service that answers with an empty audio payload, and an
    application that holds an earlier buffer and one history entry. *)
Definition empty_answer : App.world :=
  App.mkWorld (fun _ _ => Ok ""%string) (fun _ => Ok []) (Ok tt)
    "00000000-0000-4000-8000-000000000000"%string 0 any_host.

Definition earlier_item : App.HistoryItem :=
  App.mkItem "1"%string "hello"%string Kore 0 [] 0 1 0.

Definition with_earlier_buffer : App.t :=
  App.mk "hello again"%string Kore 1 0 false None (Some scenario_B)
    [earlier_item].

(** ** Further functions of the source *)

(** *** The [ended] event of the current source (AudioPlayer.tsx)

    The handler that [playAudio] registered on the source now in
    [sourceNodeRef] runs with the [isPlaying] it captured. *)
Definition ended_event (s : Player.t) : Player.t :=
  match Player.sourceNode s with
  | Some n => Player.onended (Player.onended_isPlaying n) s
  | None => s
  end.

(** The play/pause button: [onClick={isPlaying ? pauseAudio : playAudio}]. *)
Definition toggle (s : Player.t) : Player.t :=
  if Player.isPlaying s then Player.pauseAudio s
  else Player.playAudio false s.


(** The events that leave the source of the player in place: all but
    those that call [playAudio]. *)
Definition keeps_source (e : Player.event) : Prop :=
  match e with
  | Player.Play | Player.Restart => False
  | _ => True
  end.

(** *** [formatTime] (AudioPlayer.tsx)

    The time is a rational, the quotient and the remainder are exact and
    an integer is printed digit by digit.  That is what the source
    computes for a time below 2^53: the rounding of the quotient by 60
    never reaches the next integer, [%] is exact, and [toString] prints
    an integer below 2^53 in full.  From 2^53 on the source rounds and
    prints the shortest digits that identify the double; the properties
    below are stated for times below 2^53. *)

(** [x % 60] on numbers: the remainder has the sign of [x]. *)
Definition rem60 (t : Q) : Q := t - 60 * inject_Z (JS.trunc (t / 60)).

(** [n.toString()] for an integer. *)
Definition toString (z : Z) : string := NilZero.string_of_int (Z.to_int z).

Fixpoint zeros (n : nat) : string :=
  match n with
  | O => EmptyString
  | S n' => String "0" (zeros n')
  end.

(** [s.padStart(2, '0')] *)
Definition padStart2 (s : string) : string :=
  (zeros (2 - String.length s) ++ s)%string.

Definition formatTime (t : Q) : string :=
  let mins := Qfloor (t / 60) in
  let secs := Qfloor (rem60 t) in
  (toString mins ++ ":" ++ padStart2 (toString secs))%string.

(** The decimal digit [d] as a character. *)
Definition digit (d : Z) : ascii := ascii_of_nat (48 + Z.to_nat d).

(** *** The bars of the visualizer ([draw] in AudioPlayer.tsx)

    One [fillRect] per frequency bin, in the order of the loop;
    [dataArray] is what [getByteFrequencyData] has filled in.  The
    coordinates are rationals: the rounding of the running sum [x] is not
    modelled. *)
Record rect : Type := mkRect {
  rect_x : Q;
  rect_y : Q;
  rect_w : Q;
  rect_h : Q
}.

Fixpoint draw_bars (canvas_height barWidth : Q) (dataArray : list Z) (x : Q)
  : list rect :=
  match dataArray with
  | [] => []
  | v :: rest =>
      let barHeight := (inject_Z v / 2)%Q in
      mkRect x (canvas_height - barHeight) barWidth barHeight
      :: draw_bars canvas_height barWidth rest (x + (barWidth + 1))%Q
  end.

Definition draw (canvas_width canvas_height : Q) (dataArray : list Z)
  : list rect :=
  let bufferLength := Datatypes.length dataArray in
  let barWidth :=
    (canvas_width / inject_Z (Z.of_nat bufferLength) * (5 # 2))%Q in
  draw_bars canvas_height barWidth dataArray 0.

(** *** [deleteHistoryItem] and [loadFromHistory] (application component) *)

Definition deleteHistoryItem (id : string) (s : App.t) : App.t :=
  App.mk (App.text s) (App.selectedVoice s) (App.speed s) (App.pitch s)
    (App.isLoading s) (App.error s) (App.currentAudioBuffer s)
    (filter (fun item => negb (String.eqb (App.id item) id)) (App.history s)).

(** [x || fallback] on numbers: 0 is falsy. *)
Definition or_else (x fallback : Q) : Q :=
  if Qeq_bool x 0 then fallback else x.

(** [loadFromHistory].  [nativeDecode] is the browser's
    [AudioContext.decodeAudioData], applied to the bytes of the stored
    blob; a failure is logged and changes nothing. *)
Definition loadFromHistory (newAudioContext : result unit)
  (nativeDecode : list Z -> result AudioBuffer) (item : App.HistoryItem)
  (s : App.t) : App.t :=
  match newAudioContext with
  | Err _ => s
  | Ok _ =>
      match nativeDecode (App.audioBlob item) with
      | Err _ => s
      | Ok buffer =>
          App.mk (App.item_text item) (App.voice item)
            (or_else (App.item_speed item) 1)
            (or_else (App.item_pitch item) 0)
            (App.isLoading s) (App.error s) (Some buffer) (App.history s)
      end
  end.

(** A generation attempt whose steps all succeed: [data] is the byte
    array that [decodeBase64] returns and [b] the buffer decoded from
    it. *)
Definition generation_succeeds (w : App.world) (s : App.t)
  (data : Uint8Array) (b : AudioBuffer) : Prop :=
  App.trim_is_empty (App.text s) = false /\
  exists base64Audio,
    App.generateSpeech w (App.text s) (App.selectedVoice s) = Ok base64Audio /\
    App.decodeBase64 w base64Audio = Ok data /\
    App.newAudioContext w = Ok tt /\
    decodeAudioData (App.host_supports w) data 24000 1 = Ok b.

(** The entry that a successful generation puts in the history. *)
Definition new_item (w : App.world) (s : App.t) (b : AudioBuffer)
  : App.HistoryItem :=
  App.mkItem (App.randomUUID w)
    (substring 0 60 (App.text s)
     ++ (if (60 <? String.length (App.text s))%nat then "..." else ""))%string
    (App.selectedVoice s) (App.Date_now w) (wav_header b ++ wav_data b)
    (AudioBuffer_duration b) (App.speed s) (App.pitch s).

(** A service that answers with two samples of audio. *)
Definition two_samples : App.world :=
  App.mkWorld (fun _ _ => Ok "AQACAA=="%string) (fun _ => Ok [1; 0; 2; 0])
    (Ok tt) "00000000-0000-4000-8000-000000000001"%string 0 any_host.

(** *** [generateSpeech] (speech service module)

    The response of [ai.models.generateContent], as far as the function
    looks into it; each optional field may be absent. *)
Module Gemini.

Record InlineData : Type := mkInline { data : option string }.
Record Part : Type := mkPart { inlineData : option InlineData }.
Record Content : Type := mkContent { parts : option (list Part) }.
Record Candidate : Type := mkCandidate { content : option Content }.
Record Response : Type := mkResponse { candidates : option (list Candidate) }.

Definition missing_key : string :=
  "API Key is missing. Please check your environment configuration.".

Definition no_audio : string := "No audio data returned from the model.".

(** [parts?.find(p => p.inlineData)] *)
Definition find_audio (ps : list Part) : option Part :=
  find (fun p => match inlineData p with Some _ => true | None => false end)
       ps.

(** [response.candidates?.[0]?.content?.parts] *)
Definition first_parts (r : Response) : option (list Part) :=
  match candidates r with
  | Some (c :: _) =>
      match content c with
      | Some ct => parts ct
      | None => None
      end
  | _ => None
  end.

(** [API_KEY] is [process.env.API_KEY || '']; [generateContent] is the
    call to the service.  What the [try] block throws is logged and
    thrown again. *)
Definition generateSpeech (API_KEY : string)
  (generateContent : string -> VoiceName -> result Response)
  (text : string) (voiceName : VoiceName) : result string :=
  if (String.length API_KEY =? 0)%nat then Err (ServiceError missing_key)
  else
    response <- generateContent text voiceName ;;
    match first_parts response with
    | None => Err (ServiceError no_audio)
    | Some ps =>
        match find_audio ps with
        | None => Err (ServiceError no_audio)
        | Some audioPart =>
            match inlineData audioPart with
            | None => Err (ServiceError no_audio)
            | Some i =>
                match data i with
                | None => Err (ServiceError no_audio)
                | Some d =>
                    if (String.length d =? 0)%nat
                    then Err (ServiceError no_audio)
                    else Ok d
                end
            end
        end
    end.

End Gemini.

(** The sizes a buffer must have for the fields of the header to hold
    them without wrapping. *)
Definition header_holds (b : AudioBuffer) : Prop :=
  Z.of_nat (numberOfChannels b) * 2 < 2 ^ 16 /\
  0 <= sampleRate b < 2 ^ 32 /\
  sampleRate b * 2 * Z.of_nat (numberOfChannels b) < 2 ^ 32 /\
  Z.of_nat (44 + 2 * numberOfChannels b * length b) < 2 ^ 32.

(** What every record reachable from the mounted player satisfies
    beside [inv]: the displayed time lies in the buffer, and a playing
    session has its source and its context. *)
Definition shown (d : Q) (s : Player.t) : Prop :=
  inv d s /\
  Player.duration s = d /\
  (0 <= Player.currentTime s <= d)%Q /\
  (Player.isPlaying s = true ->
   Player.sourceNode s <> None /\ Player.audioContext s <> None).

(** * Properties *)

(** ** Numbers *)

Lemma Qlt_bool_true (a b : Q) : JS.Qlt_bool a b = true <-> (a < b)%Q.
Proof.
  unfold JS.Qlt_bool. rewrite negb_true_iff.
  split; intro H.
  - apply Qnot_le_lt. intro Hle. apply Qle_bool_iff in Hle. congruence.
  - destruct (Qle_bool b a) eqn:E; [|reflexivity].
    apply Qle_bool_iff in E. exfalso. apply (Qlt_not_le _ _ H E).
Qed.

Lemma Qlt_bool_false (a b : Q) : JS.Qlt_bool a b = false <-> (b <= a)%Q.
Proof.
  unfold JS.Qlt_bool. rewrite negb_false_iff. apply Qle_bool_iff.
Qed.

Lemma trunc_nonneg (q : Q) :
  (0 <= q)%Q -> JS.trunc q = Qfloor q.
Proof.
  intro H. destruct q as [n d]. unfold JS.trunc, Qfloor; simpl.
  apply Z.quot_div_nonneg; [|lia].
  unfold Qle in H; simpl in H. lia.
Qed.

Lemma trunc_nonpos (q : Q) :
  (q <= 0)%Q -> JS.trunc q = Qceiling q.
Proof.
  intro H. destruct q as [n d]. unfold JS.trunc, Qceiling, Qfloor; simpl.
  unfold Qle in H; simpl in H.
  assert (Hn : n <= 0) by lia.
  rewrite <- (Z.opp_involutive n) at 1.
  rewrite Z.quot_opp_l by lia.
  rewrite Z.quot_div_nonneg by lia. reflexivity.
Qed.

(** Truncation moves a number toward zero by less than one. *)
Lemma trunc_lower (q : Q) :
  (0 <= q)%Q -> (inject_Z (JS.trunc q) <= q /\ q < inject_Z (JS.trunc q) + 1)%Q.
Proof.
  intro H. rewrite (trunc_nonneg q H). split.
  - apply Qfloor_le.
  - pose proof (Qlt_floor q) as L. rewrite inject_Z_plus in L. exact L.
Qed.

Lemma trunc_upper (q : Q) :
  (q <= 0)%Q -> (q <= inject_Z (JS.trunc q) /\ inject_Z (JS.trunc q) - 1 < q)%Q.
Proof.
  intro H. rewrite (trunc_nonpos q H). split.
  - apply Qle_ceiling.
  - pose proof (Qceiling_lt q) as L.
    unfold Z.sub in L. rewrite inject_Z_plus in L. exact L.
Qed.

Lemma inject_Z_le_inv (a b : Z) : (inject_Z a <= inject_Z b)%Q -> a <= b.
Proof. rewrite <- Zle_Qle. auto. Qed.

Lemma inject_Z_lt_inv (a b : Z) : (inject_Z a < inject_Z b)%Q -> a < b.
Proof. rewrite <- Zlt_Qlt. auto. Qed.

(** A rational between two integers truncates between them. *)
Lemma trunc_between (q : Q) (lo hi : Z) :
  lo <= 0 <= hi -> (inject_Z lo <= q <= inject_Z hi)%Q ->
  lo <= JS.trunc q <= hi.
Proof.
  intros Hz [Hlo Hhi].
  destruct (Qlt_le_dec q 0) as [Hneg | Hpos].
  - assert (Hq : (q <= 0)%Q) by (apply Qlt_le_weak; exact Hneg).
    destruct (trunc_upper q Hq) as [U1 U2].
    split.
    + apply inject_Z_le_inv. apply Qle_trans with q; assumption.
    + assert (L : (inject_Z (JS.trunc q) < inject_Z 1)%Q).
      { change (inject_Z 1) with 1%Q. lra. }
      apply inject_Z_lt_inv in L. lia.
  - destruct (trunc_lower q Hpos) as [L1 L2].
    split.
    + assert (L : (inject_Z (-1) < inject_Z (JS.trunc q))%Q).
      { change (inject_Z (-1)) with (-1)%Q. lra. }
      apply inject_Z_lt_inv in L. lia.
    + apply inject_Z_le_inv. apply Qle_trans with q; assumption.
Qed.

Lemma ToInt32_small (z : Z) : - 2 ^ 31 <= z < 2 ^ 31 -> JS.ToInt32 z = z.
Proof.
  intro H. unfold JS.ToInt32. rewrite Z.mod_small; lia.
Qed.

Lemma ToInt16_ToUint16 (z : Z) :
  - 2 ^ 15 <= z < 2 ^ 15 -> JS.ToInt16 (JS.ToUint16 z) = z.
Proof.
  intro H. unfold JS.ToInt16, JS.ToUint16.
  destruct (Z_lt_le_dec z 0) as [Hneg | Hpos].
  - replace (z mod 2 ^ 16) with (z + 2 ^ 16).
    + replace (z + 2 ^ 16 + 2 ^ 15) with (z + 2 ^ 15 + 1 * 2 ^ 16) by ring.
      rewrite Z.mod_add by lia. rewrite Z.mod_small; lia.
    + apply Z.mod_unique with (-1); lia.
  - rewrite (Z.mod_small z) by lia. rewrite Z.mod_small; lia.
Qed.

Lemma clamp_range (x : Q) :
  (-1 <= JS.Math_max (-1) (JS.Math_min 1 x) <= 1)%Q.
Proof.
  unfold JS.Math_max, JS.Math_min.
  destruct (JS.Qlt_bool x 1) eqn:E1.
  - apply Qlt_bool_true in E1.
    destruct (JS.Qlt_bool (-1) x) eqn:E2.
    + apply Qlt_bool_true in E2. lra.
    + lra.
  - apply Qlt_bool_false in E1.
    destruct (JS.Qlt_bool (-1) 1) eqn:E2; [lra|].
    apply Qlt_bool_false in E2. lra.
Qed.

(** The clamp leaves a sample of [-1, 1] as it is. *)
Lemma clamp_id (x : Q) :
  (-1 <= x <= 1)%Q -> JS.Math_max (-1) (JS.Math_min 1 x) == x.
Proof.
  intros [Hlo Hhi]. unfold JS.Math_max, JS.Math_min.
  destruct (JS.Qlt_bool x 1) eqn:E1.
  - destruct (JS.Qlt_bool (-1) x) eqn:E2; [reflexivity|].
    apply Qlt_bool_false in E2. lra.
  - apply Qlt_bool_false in E1.
    destruct (JS.Qlt_bool (-1) 1) eqn:E2; [lra|].
    apply Qlt_bool_false in E2. lra.
Qed.

(** ** Quantization *)

Lemma int16_to_float_eq (v : Z) :
  int16_to_float v == inject_Z v * (1 # 32768).
Proof.
  unfold int16_to_float, Qeq, Qmult, inject_Z; simpl. lia.
Qed.

(** The test [0.5 + sample < 0] of line 84 is [sample < -0.5]. *)
Lemma scale_test (c : Q) :
  JS.Qlt_bool ((1 # 2) + c) 0 = JS.Qlt_bool c (- (1 # 2)).
Proof.
  destruct (JS.Qlt_bool c (- (1 # 2))) eqn:E.
  - apply Qlt_bool_true in E. apply Qlt_bool_true. lra.
  - apply Qlt_bool_false in E. apply Qlt_bool_false. lra.
Qed.

(** The value [quantize] computes: the factor is 32768 below -0.5 and
    32767 from -0.5 on, and the result is a 16-bit integer, so neither
    [| 0] nor [setInt16] wraps it. *)
Lemma quantize_rule (x : Q) :
  let c := JS.Math_max (-1) (JS.Math_min 1 x) in
  quantize x
  = JS.trunc (if JS.Qlt_bool c (- (1 # 2)) then c * 32768 else c * 32767)%Q
  /\ - 32768 <= quantize x <= 32767.
Proof.
  intro c. unfold quantize. fold c. rewrite scale_test.
  pose proof (clamp_range x) as Hc. fold c in Hc.
  assert (R : - 32768
              <= JS.trunc (if JS.Qlt_bool c (- (1 # 2))
                           then c * 32768 else c * 32767)%Q
              <= 32767).
  { apply trunc_between; [lia|].
    change (inject_Z (-32768)) with (-32768)%Q.
    change (inject_Z 32767) with 32767%Q.
    destruct (JS.Qlt_bool c (- (1 # 2))) eqn:E.
    - apply Qlt_bool_true in E. lra.
    - apply Qlt_bool_false in E. lra. }
  unfold JS.bitor0. rewrite ToInt32_small by lia.
  split; [reflexivity | exact R].
Qed.

(** De-quantizing the value computed for a sample of [-1, 1] misses the
    sample by less than two steps of 1/32768. *)
Lemma quantize_error (x : Q) :
  (-1 <= x <= 1)%Q ->
  (Qabs (x - int16_to_float (quantize x)) < 2 # 32768)%Q.
Proof.
  intro Hx.
  destruct (quantize_rule x) as [Hq _]. cbv zeta in Hq.
  pose proof (clamp_id x Hx) as Hc.
  set (c := JS.Math_max (-1) (JS.Math_min 1 x)) in *.
  rewrite int16_to_float_eq, Hq.
  apply Qabs_Qlt_condition.
  destruct (JS.Qlt_bool c (- (1 # 2))) eqn:E.
  - apply Qlt_bool_true in E.
    destruct (trunc_upper (c * 32768)%Q) as [U1 U2]; [lra|].
    set (t := inject_Z (JS.trunc (c * 32768)%Q)) in *. lra.
  - apply Qlt_bool_false in E.
    destruct (Qlt_le_dec c 0) as [Hneg | Hpos].
    + destruct (trunc_upper (c * 32767)%Q) as [U1 U2]; [lra|].
      set (t := inject_Z (JS.trunc (c * 32767)%Q)) in *. lra.
    + destruct (trunc_lower (c * 32767)%Q) as [L1 L2]; [lra|].
      set (t := inject_Z (JS.trunc (c * 32767)%Q)) in *. lra.
Qed.

(** Where the rule of section 4.2 and the code agree: everywhere but on
    the clamped samples of [-0.5, 0). *)
Lemma quantize_spec_agree (x : Q) :
  let c := JS.Math_max (-1) (JS.Math_min 1 x) in
  (c < - (1 # 2) \/ 0 <= c)%Q -> quantize x = spec_quantize x.
Proof.
  intros c H. destruct (quantize_rule x) as [Hq _]. cbv zeta in Hq.
  fold c in Hq. rewrite Hq. unfold spec_quantize. fold c.
  destruct H as [H | H].
  - assert (E1 : JS.Qlt_bool c (- (1 # 2)) = true) by (apply Qlt_bool_true; exact H).
    assert (E2 : JS.Qlt_bool c 0 = true) by (apply Qlt_bool_true; lra).
    rewrite E1, E2. reflexivity.
  - assert (E1 : JS.Qlt_bool c (- (1 # 2)) = false) by (apply Qlt_bool_false; lra).
    assert (E2 : JS.Qlt_bool c 0 = false) by (apply Qlt_bool_false; exact H).
    rewrite E1, E2. reflexivity.
Qed.

(** ** DataView *)

Lemma le_bytes_length (n : nat) (v : Z) :
  Datatypes.length (DataView.le_bytes n v) = n.
Proof.
  revert v. induction n as [|n IH]; intro v; simpl; [reflexivity|].
  now rewrite IH.
Qed.

Lemma le_value_le_bytes (n : nat) (v : Z) :
  DataView.le_value (DataView.le_bytes n v) = v mod 256 ^ Z.of_nat n.
Proof.
  revert v. induction n as [|n IH]; intro v.
  - simpl. now rewrite Z.mod_1_r.
  - cbn [DataView.le_bytes DataView.le_value]. rewrite IH.
    rewrite Nat2Z.inj_succ, Z.pow_succ_r by lia.
    rewrite Z.rem_mul_r by lia. reflexivity.
Qed.

Lemma store_here (done old rest bs : list Z) :
  Datatypes.length old = Datatypes.length bs ->
  DataView.store (done ++ old ++ rest) (Datatypes.length done) bs
  = Ok (done ++ bs ++ rest).
Proof.
  intro H. unfold DataView.store.
  rewrite !length_app.
  replace (Datatypes.length done + Datatypes.length bs
           <=? Datatypes.length done
               + (Datatypes.length old + Datatypes.length rest))%nat
    with true by (symmetry; apply Nat.leb_le; lia).
  f_equal. rewrite firstn_app, Nat.sub_diag, firstn_all. simpl.
  rewrite app_nil_r. f_equal. f_equal.
  rewrite skipn_app, skipn_all2 by lia. simpl.
  replace (Datatypes.length done + Datatypes.length bs
           - Datatypes.length done)%nat
    with (Datatypes.length bs) by lia.
  rewrite skipn_app, skipn_all2 by lia. simpl.
  replace (Datatypes.length bs - Datatypes.length old)%nat with 0%nat by lia.
  reflexivity.
Qed.

Lemma load_here (done bs rest : list Z) :
  DataView.load (done ++ bs ++ rest) (Datatypes.length done)
    (Datatypes.length bs) = bs.
Proof.
  unfold DataView.load.
  rewrite skipn_app, skipn_all, Nat.sub_diag. simpl.
  rewrite firstn_app, Nat.sub_diag, firstn_all. simpl.
  now rewrite app_nil_r.
Qed.

(** ** The WAV encoder *)

Lemma write_sample_here (channels : list (list Q)) (i : nat)
  (hdr written : list Z) (m p : nat) :
  Datatypes.length hdr = 44%nat ->
  write_sample channels i
    (mkWriter (hdr ++ written ++ repeat 0 (2 + m)) p
       (Datatypes.length written))
  = Ok (mkWriter
          (hdr ++ (written ++ sample_bytes (nth p (nth i channels []) 0%Q))
               ++ repeat 0 m)
          p (Datatypes.length
               (written ++ sample_bytes (nth p (nth i channels []) 0%Q)))).
Proof.
  intro Hh. unfold write_sample, DataView.setInt16. cbn [view pos offset].
  fold (sample_bytes (nth p (nth i channels []) 0%Q)).
  set (bs := sample_bytes (nth p (nth i channels []) 0%Q)).
  assert (Hb : Datatypes.length bs = 2%nat) by apply le_bytes_length.
  replace (44 + Datatypes.length written)%nat
    with (Datatypes.length (hdr ++ written))
    by (rewrite length_app; lia).
  replace (hdr ++ written ++ repeat 0 (2 + m))
    with ((hdr ++ written) ++ repeat 0 2 ++ repeat 0 m)
    by (rewrite <- app_assoc, <- repeat_app; reflexivity).
  rewrite store_here by (rewrite repeat_length; lia).
  cbn [bind]. f_equal. f_equal.
  - rewrite <- !app_assoc. reflexivity.
  - rewrite !length_app. lia.
Qed.

(** One round of the [for] loop writes one frame. *)
Lemma write_frame_here (channels : list (list Q)) (k : nat) :
  forall (i : nat) (hdr written : list Z) (m p : nat),
  Datatypes.length hdr = 44%nat ->
  let bytes :=
    flat_map (fun j => sample_bytes (nth p (nth j channels []) 0%Q))
             (seq i k) in
  for_each (write_sample channels) (seq i k)
    (mkWriter (hdr ++ written ++ repeat 0 (2 * k + m)) p
       (Datatypes.length written))
  = Ok (mkWriter (hdr ++ (written ++ bytes) ++ repeat 0 m) p
          (Datatypes.length (written ++ bytes))).
Proof.
  induction k as [|k IH]; intros i hdr written m p Hh bytes.
  - subst bytes. simpl. rewrite app_nil_r. reflexivity.
  - subst bytes. cbn [seq for_each flat_map].
    replace (2 * S k + m)%nat with (2 + (2 * k + m))%nat by lia.
    rewrite write_sample_here by exact Hh. cbn [bind].
    rewrite IH by exact Hh.
    rewrite <- !app_assoc. reflexivity.
Qed.

(** The [while] loop, started at frame [p] with the buffer written up to
    [written]: it writes the frames [p], [p + 1], ... up to the last one,
    one after the other from the current [offset]. *)
Lemma write_frames_here (channels : list (list Q)) (numOfChan L : nat) :
  forall (fuel p : nat) (hdr written : list Z) (m : nat),
  Datatypes.length hdr = 44%nat ->
  (L - p <= fuel)%nat ->
  let frame q :=
    flat_map (fun j => sample_bytes (nth q (nth j channels []) 0%Q))
             (seq 0 numOfChan) in
  let bytes := flat_map frame (seq p (L - p)) in
  write_frames fuel channels numOfChan L
    (mkWriter (hdr ++ written ++ repeat 0 (2 * numOfChan * (L - p) + m)) p
       (Datatypes.length written))
  = Ok (mkWriter (hdr ++ (written ++ bytes) ++ repeat 0 m) (p + (L - p))
          (Datatypes.length (written ++ bytes))).
Proof.
  induction fuel as [|fuel IH]; intros p hdr written m Hh Hf frame bytes.
  - subst bytes. replace (L - p)%nat with 0%nat by lia.
    simpl. rewrite Nat.mul_0_r, app_nil_r, Nat.add_0_r. reflexivity.
  - cbn [write_frames pos].
    destruct (p <? L)%nat eqn:E.
    + apply Nat.ltb_lt in E.
      subst bytes.
      replace (L - p)%nat with (S (L - S p)) by lia.
      replace (2 * numOfChan * S (L - S p) + m)%nat
        with (2 * numOfChan + (2 * numOfChan * (L - S p) + m))%nat by lia.
      rewrite write_frame_here by exact Hh. cbn [bind view pos offset].
      replace (p + 1)%nat with (S p) by lia.
      rewrite IH by (try exact Hh; lia).
      cbn [seq flat_map]. fold (frame p).
      rewrite <- !app_assoc.
      replace (S p + (L - S p))%nat with (p + S (L - S p))%nat by lia.
      reflexivity.
    + apply Nat.ltb_ge in E.
      subst bytes. replace (L - p)%nat with 0%nat by lia.
      simpl. rewrite Nat.mul_0_r, app_nil_r, Nat.add_0_r. reflexivity.
Qed.

Lemma channels_nth (b : AudioBuffer) (j : nat) :
  (j < numberOfChannels b)%nat ->
  nth j (map (getChannelData b) (seq 0 (numberOfChannels b))) []
  = getChannelData b j.
Proof.
  intro H.
  rewrite (nth_indep _ [] (getChannelData b 0))
    by (rewrite length_map, length_seq; exact H).
  rewrite map_nth, seq_nth by exact H. reflexivity.
Qed.

Lemma frame_bytes_channels (b : AudioBuffer) (p : nat) :
  flat_map
    (fun j =>
       sample_bytes
         (nth p (nth j (map (getChannelData b)
                           (seq 0 (numberOfChannels b))) []) 0%Q))
    (seq 0 (numberOfChannels b))
  = frame_bytes b p.
Proof.
  unfold frame_bytes. rewrite !flat_map_concat_map. f_equal.
  apply map_ext_in. intros j Hj. apply in_seq in Hj.
  rewrite channels_nth by lia. reflexivity.
Qed.

(** What [audioBufferToWav] returns.  The header writers leave [pos] at
    44, and the loop that follows uses [pos] as its frame index. *)
Lemma audioBufferToWav_eq (b : AudioBuffer) :
  audioBufferToWav b = Ok (wav_header b ++ wav_data b).
Proof.
  unfold audioBufferToWav. cbv zeta.
  set (D := (length b * numberOfChannels b * 2)%nat).
  set (T := Z.of_nat (D + 44)).
  set (m := (2 * numberOfChannels b * Nat.min 44 (length b))%nat).
  set (X := (2 * numberOfChannels b * (length b - 44))%nat).
  unfold DataView.ArrayBuffer.
  replace (D + 44)%nat with (44 + (X + m))%nat by (subst D X m; lia).
  cbn [repeat Nat.add].
  unfold setUint32, setUint16, DataView.setUint32, DataView.setUint16,
    DataView.store.
  cbn [bind view pos offset Datatypes.length DataView.le_bytes Nat.add Nat.leb
       firstn skipn app].
  match goal with
  | |- bind (write_frames _ _ _ _ ?w) _ = _ =>
      change w
        with (mkWriter
                (wav_header b ++ []
                 ++ repeat 0
                      (2 * numberOfChannels b * (length b - 44) + m))
                44 (Datatypes.length (@nil Z)))
  end.
  rewrite write_frames_here by (try reflexivity; lia).
  cbn [bind view app]. f_equal. f_equal. unfold wav_data. f_equal.
  rewrite !flat_map_concat_map. f_equal.
  apply map_ext. intro p. apply frame_bytes_channels.
Qed.

(** Reading back one block of a sequence of blocks of equal size. *)
Lemma flat_map_seq_split (f : nat -> list Z) (s k j : nat) :
  (j < k)%nat ->
  flat_map f (seq s k)
  = flat_map f (seq s j) ++ f (s + j)%nat
    ++ flat_map f (seq (S (s + j)) (k - S j)).
Proof.
  intro H.
  replace k with (j + S (k - S j))%nat at 1 by lia.
  rewrite seq_app, flat_map_app. cbn [seq flat_map]. reflexivity.
Qed.

Lemma flat_map_seq_length (f : nat -> list Z) (n : nat) :
  (forall j, Datatypes.length (f j) = n) ->
  forall s k, Datatypes.length (flat_map f (seq s k)) = (n * k)%nat.
Proof.
  intros Hn s k. revert s. induction k as [|k IH]; intro s.
  - simpl. lia.
  - cbn [seq flat_map]. rewrite length_app, Hn, IH. lia.
Qed.

Lemma load_block (f : nat -> list Z) (n : nat) :
  (forall j, Datatypes.length (f j) = n) ->
  forall (pre post : list Z) (s k j : nat),
  (j < k)%nat ->
  DataView.load (pre ++ flat_map f (seq s k) ++ post)
    (Datatypes.length pre + n * j) n
  = f (s + j)%nat.
Proof.
  intros Hn pre post s k j Hj.
  rewrite (flat_map_seq_split f s k j Hj).
  replace (pre ++ (flat_map f (seq s j) ++ f (s + j)%nat
                   ++ flat_map f (seq (S (s + j)) (k - S j))) ++ post)
    with ((pre ++ flat_map f (seq s j)) ++ f (s + j)%nat
          ++ (flat_map f (seq (S (s + j)) (k - S j)) ++ post))
    by (rewrite <- !app_assoc; reflexivity).
  replace (Datatypes.length pre + n * j)%nat
    with (Datatypes.length (pre ++ flat_map f (seq s j)))
    by (rewrite length_app, (flat_map_seq_length f n Hn); reflexivity).
  rewrite <- (Hn (s + j)%nat).
  apply load_here.
Qed.

Lemma sample_bytes_length (x : Q) : Datatypes.length (sample_bytes x) = 2%nat.
Proof. apply le_bytes_length. Qed.

Lemma frame_bytes_length (b : AudioBuffer) (p : nat) :
  Datatypes.length (frame_bytes b p) = (2 * numberOfChannels b)%nat.
Proof.
  unfold frame_bytes.
  apply (flat_map_seq_length
           (fun i => sample_bytes (nth p (getChannelData b i) 0%Q)) 2).
  intro j. apply sample_bytes_length.
Qed.

Lemma wav_header_length (b : AudioBuffer) :
  Datatypes.length (wav_header b) = 44%nat.
Proof. reflexivity. Qed.

(** The 16-bit integer stored for a sample is read back unchanged. *)
Lemma sample_bytes_value (x : Q) :
  JS.ToInt16 (DataView.le_value (sample_bytes x)) = quantize x.
Proof.
  unfold sample_bytes. rewrite le_value_le_bytes.
  destruct (quantize_rule x) as [_ R].
  change (256 ^ Z.of_nat 2) with (2 ^ 16).
  unfold JS.ToUint16. rewrite Z.mod_mod by lia.
  apply ToInt16_ToUint16. lia.
Qed.

(** The frame the loop reads at index [p] (from 44 on) is stored in the
    data chunk at frame slot [p - 44]. *)
Lemma wav_data_sample (b : AudioBuffer) (p i : nat) :
  (44 <= p < length b)%nat -> (i < numberOfChannels b)%nat ->
  DataView.getInt16 (wav_header b ++ wav_data b)
    (44 + 2 * ((p - 44) * numberOfChannels b + i))
  = quantize (nth p (getChannelData b i) 0%Q).
Proof.
  intros Hp Hi. unfold DataView.getInt16, wav_data.
  rewrite (flat_map_seq_split (frame_bytes b) 44 (length b - 44) (p - 44))
    by lia.
  replace (44 + (p - 44))%nat with p by lia.
  set (pre := flat_map (frame_bytes b) (seq 44 (p - 44))).
  set (post := flat_map (frame_bytes b) (seq (S p) (length b - 44 - S (p - 44)))).
  set (z := repeat 0 (2 * numberOfChannels b * Nat.min 44 (length b))).
  replace (wav_header b ++ (pre ++ frame_bytes b p ++ post) ++ z)
    with ((wav_header b ++ pre) ++ frame_bytes b p ++ (post ++ z))
    by (rewrite <- !app_assoc; reflexivity).
  replace (44 + 2 * ((p - 44) * numberOfChannels b + i))%nat
    with (Datatypes.length (wav_header b ++ pre) + 2 * i)%nat.
  - unfold frame_bytes at 1.
    rewrite (load_block
               (fun i => sample_bytes (nth p (getChannelData b i) 0%Q)) 2)
      by (try (intro; apply sample_bytes_length); exact Hi).
    apply sample_bytes_value.
  - rewrite length_app, wav_header_length. subst pre.
    rewrite (flat_map_seq_length (frame_bytes b) (2 * numberOfChannels b))
      by (intro; apply frame_bytes_length).
    lia.
Qed.

(** ** The header read back *)

Lemma ToUint32_idem (v : Z) : JS.ToUint32 (JS.ToUint32 v) = JS.ToUint32 v.
Proof. unfold JS.ToUint32. apply Z.mod_mod. lia. Qed.

Lemma ToUint16_idem (v : Z) : JS.ToUint16 (JS.ToUint16 v) = JS.ToUint16 v.
Proof. unfold JS.ToUint16. apply Z.mod_mod. lia. Qed.

Lemma le_value_uint32 (v : Z) :
  DataView.le_value (DataView.le_bytes 4 (JS.ToUint32 v)) = JS.ToUint32 v.
Proof. rewrite le_value_le_bytes. apply ToUint32_idem. Qed.

Lemma le_value_uint16 (v : Z) :
  DataView.le_value (DataView.le_bytes 2 (JS.ToUint16 v)) = JS.ToUint16 v.
Proof. rewrite le_value_le_bytes. apply ToUint16_idem. Qed.

Ltac header_field :=
  intros;
  unfold DataView.getUint32, DataView.getUint16, DataView.load;
  cbn [wav_header app DataView.le_bytes skipn firstn];
  match goal with
  | |- DataView.le_value ?l = JS.ToUint32 ?v =>
      change l with (DataView.le_bytes 4 (JS.ToUint32 v));
      apply le_value_uint32
  | |- DataView.le_value ?l = JS.ToUint16 ?v =>
      change l with (DataView.le_bytes 2 (JS.ToUint16 v));
      apply le_value_uint16
  end.

Lemma header_riff (b : AudioBuffer) (rest : list Z) :
  DataView.getUint32 (wav_header b ++ rest) 0 = JS.ToUint32 0x46464952.
Proof. header_field. Qed.

Lemma header_wave (b : AudioBuffer) (rest : list Z) :
  DataView.getUint32 (wav_header b ++ rest) 8 = JS.ToUint32 0x45564157.
Proof. header_field. Qed.

Lemma header_fmt (b : AudioBuffer) (rest : list Z) :
  DataView.getUint32 (wav_header b ++ rest) 12 = JS.ToUint32 0x20746d66.
Proof. header_field. Qed.

Lemma header_format (b : AudioBuffer) (rest : list Z) :
  DataView.getUint16 (wav_header b ++ rest) 20 = JS.ToUint16 1.
Proof. header_field. Qed.

Lemma header_channels (b : AudioBuffer) (rest : list Z) :
  DataView.getUint16 (wav_header b ++ rest) 22
  = JS.ToUint16 (Z.of_nat (numberOfChannels b)).
Proof. header_field. Qed.

Lemma header_rate (b : AudioBuffer) (rest : list Z) :
  DataView.getUint32 (wav_header b ++ rest) 24 = JS.ToUint32 (sampleRate b).
Proof. header_field. Qed.

Lemma header_bits (b : AudioBuffer) (rest : list Z) :
  DataView.getUint16 (wav_header b ++ rest) 34 = JS.ToUint16 16.
Proof. header_field. Qed.

Lemma header_data (b : AudioBuffer) (rest : list Z) :
  DataView.getUint32 (wav_header b ++ rest) 36 = JS.ToUint32 0x61746164.
Proof. header_field. Qed.

Lemma header_data_size (b : AudioBuffer) (rest : list Z) :
  DataView.getUint32 (wav_header b ++ rest) 40
  = JS.ToUint32
      (Z.of_nat (length b * numberOfChannels b * 2 + 44) - 40 - 4).
Proof. header_field. Qed.

(** ** Decoding what the encoder wrote *)

Lemma wavDecode_encoded (b : AudioBuffer) :
  (1 <= numberOfChannels b)%nat -> fits_header b ->
  let out := wav_header b ++ wav_data b in
  wavDecode out
  = Ok (mkAudioBuffer (numberOfChannels b) (length b) (sampleRate b)
          (map (fun c =>
                  map (fun f =>
                         int16_to_float
                           (DataView.getInt16 out
                              (44 + 2 * (f * numberOfChannels b + c))))
                      (seq 0 (length b)))
               (seq 0 (numberOfChannels b)))).
Proof.
  intros Hc (Hch & Hrate & Htot) out. subst out. unfold wavDecode.
  rewrite header_riff, header_wave, header_fmt, header_data,
    header_format, header_bits, header_channels, header_rate,
    header_data_size.
  change (negb ((JS.ToUint32 1179011410 =? 1179011410)
                && (JS.ToUint32 1163280727 =? 1163280727)
                && (JS.ToUint32 544501094 =? 544501094)
                && (JS.ToUint32 1635017060 =? 1635017060))) with false.
  change (negb ((JS.ToUint16 1 =? 1) && (JS.ToUint16 16 =? 16))) with false.
  cbv iota.
  assert (E1 : Z.to_nat (JS.ToUint16 (Z.of_nat (numberOfChannels b)))
               = numberOfChannels b).
  { unfold JS.ToUint16. rewrite Z.mod_small by lia. apply Nat2Z.id. }
  assert (E2 : JS.ToUint32 (sampleRate b) = sampleRate b).
  { unfold JS.ToUint32. apply Z.mod_small. lia. }
  assert (E3 : (Z.to_nat
                  (JS.ToUint32
                     (Z.of_nat (length b * numberOfChannels b * 2 + 44)
                      - 40 - 4))
                / (numberOfChannels b * 2))%nat = length b).
  { unfold JS.ToUint32. rewrite Z.mod_small by lia.
    replace (Z.of_nat (length b * numberOfChannels b * 2 + 44) - 40 - 4)
      with (Z.of_nat (length b * (numberOfChannels b * 2))) by lia.
    rewrite Nat2Z.id. apply Nat.div_mul. lia. }
  rewrite E1, E2, E3. reflexivity.
Qed.

Lemma decoded_sample (out : list Z) (ch L : nat) (c f : nat) :
  (c < ch)%nat -> (f < L)%nat ->
  nth f
    (nth c
       (map (fun c =>
               map (fun f =>
                      int16_to_float
                        (DataView.getInt16 out (44 + 2 * (f * ch + c))))
                   (seq 0 L))
            (seq 0 ch)) []) 0%Q
  = int16_to_float (DataView.getInt16 out (44 + 2 * (f * ch + c))).
Proof.
  intros Hc Hf.
  set (g := fun c =>
              map (fun f =>
                     int16_to_float
                       (DataView.getInt16 out (44 + 2 * (f * ch + c))))
                  (seq 0 L)).
  rewrite (nth_indep _ [] (g 0%nat))
    by (rewrite length_map, length_seq; exact Hc).
  rewrite map_nth, seq_nth by exact Hc. subst g. cbn beta.
  set (h := fun f =>
              int16_to_float (DataView.getInt16 out (44 + 2 * (f * ch + (0 + c))))).
  rewrite (nth_indep _ 0%Q (h 0%nat))
    by (rewrite length_map, length_seq; exact Hf).
  rewrite map_nth, seq_nth by exact Hf. subst h. reflexivity.
Qed.

Lemma valid_sample (b : AudioBuffer) (c f : nat) :
  valid_buffer b -> (-1 <= nth f (getChannelData b c) 0 <= 1)%Q.
Proof.
  intros (_ & _ & Hs). unfold getChannelData.
  destruct (Nat.lt_ge_cases c (Datatypes.length (channelData b))) as [Hc | Hc].
  - rewrite Forall_forall in Hs.
    specialize (Hs (nth c (channelData b) []) (nth_In _ _ Hc)).
    destruct (Nat.lt_ge_cases f
                (Datatypes.length (nth c (channelData b) []))) as [Hf | Hf].
    + rewrite Forall_forall in Hs. apply Hs. apply nth_In. exact Hf.
    + rewrite nth_overflow by exact Hf. lra.
  - rewrite (nth_overflow (channelData b)) by exact Hc.
    destruct f; simpl; lra.
Qed.

Lemma clamp_low (x : Q) :
  (x < -1)%Q -> JS.Math_max (-1) (JS.Math_min 1 x) == -1.
Proof.
  intro H. unfold JS.Math_max, JS.Math_min.
  destruct (JS.Qlt_bool x 1) eqn:E1.
  - destruct (JS.Qlt_bool (-1) x) eqn:E2; [|reflexivity].
    apply Qlt_bool_true in E2. lra.
  - apply Qlt_bool_false in E1. lra.
Qed.

Lemma clamp_high (x : Q) :
  (1 < x)%Q -> JS.Math_max (-1) (JS.Math_min 1 x) == 1.
Proof.
  intro H. unfold JS.Math_max, JS.Math_min.
  destruct (JS.Qlt_bool x 1) eqn:E1.
  - apply Qlt_bool_true in E1. lra.
  - reflexivity.
Qed.

(** ** C1: the quantization rule *)

(** C1, as amended.  For every sample the encoding loop reads (frame
    [p], channel [i]), the encoder clamps the sample to [-1, 1], multiplies
    the clamped value by 32768 when it is below -0.5 and by 32767
    otherwise, truncates toward zero, and the 16-bit integer obtained is
    the one found in the data chunk at the slot the loop wrote. *)
Theorem quantization_written (b : AudioBuffer) (p i : nat) :
  (44 <= p < length b)%nat -> (i < numberOfChannels b)%nat ->
  exists out,
    audioBufferToWav b = Ok out /\
    let x := nth p (getChannelData b i) 0%Q in
    let clamped := JS.Math_max (-1) (JS.Math_min 1 x) in
    ((x < -1 -> clamped == -1) /\
     (-1 <= x <= 1 -> clamped == x) /\
     (1 < x -> clamped == 1))%Q /\
    DataView.getInt16 out (44 + 2 * ((p - 44) * numberOfChannels b + i))
    = JS.trunc (if JS.Qlt_bool clamped (- (1 # 2))
                then clamped * 32768
                else clamped * 32767)%Q.
Proof.
  intros Hp Hi. exists (wav_header b ++ wav_data b).
  split; [apply audioBufferToWav_eq|].
  cbv zeta. split.
  - split; [apply clamp_low | split; [apply clamp_id | apply clamp_high]].
  - rewrite wav_data_sample by assumption.
    apply (quantize_rule (nth p (getChannelData b i) 0%Q)).
Qed.

Lemma quantization_written_witness :
  exists out,
    audioBufferToWav (constant_buffer (- (1 # 4))) = Ok out /\
    DataView.getInt16 out 44 = -8191.
Proof.
  destruct (quantization_written (constant_buffer (- (1 # 4))) 44 0)
    as (out & Hout & _ & Hv).
  - simpl. lia.
  - simpl. lia.
  - exists out. split; [exact Hout|]. exact Hv.
Defined.

(** C1, as the specification words it, fails: a sample of -0.25 is stored
    as -8191 = trunc (-0.25 * 32767), where the sign rule gives
    -8192 = -0.25 * 32768. *)
Lemma sign_rule_counterexample :
  ~ encodes_by_sign_rule (constant_buffer (- (1 # 4))).
Proof.
  intros (out & Hout & H).
  rewrite audioBufferToWav_eq in Hout. injection Hout as <-.
  specialize (H 0%nat 0%nat ltac:(simpl; lia) ltac:(simpl; lia)).
  vm_compute in H. discriminate H.
Qed.

(** ** C2: the round trip *)

(** C2 does not hold of the code.  On the valid buffer [two_ends] every
    sample value, quantized and divided by 32768, is within 1/32768 of
    itself, so this buffer is within the stated tolerance of its own
    quantization.  The encoder however uses [pos], which the header
    writers have left at 44, as the frame index: it stores frames 44 and
    45 in the first two slots of the data chunk and leaves the other
    forty-four slots zero.  The frame count, the channel count and the
    sample rate come back exactly, the samples come back as -1.0,
    16383/32768 and forty-four zeros: frame 0 is -1.0 where the buffer
    holds 1.0, and no tolerance below 2 is met. *)
Theorem roundtrip_loses_frames :
  valid_buffer two_ends /\ fits_header two_ends /\
  Forall (fun x => (Qabs (x - int16_to_float (quantize x)) <= 1 # 32768)%Q)
         (getChannelData two_ends 0) /\
  (exists out b',
     audioBufferToWav two_ends = Ok out /\ wavDecode out = Ok b' /\
     length b' = 46%nat /\ numberOfChannels b' = 1%nat /\
     sampleRate b' = 24000 /\
     getChannelData b' 0
     = map int16_to_float ([-32768; 16383] ++ repeat 0 44)) /\
  forall tol, (tol < 2)%Q -> ~ roundtrip_within tol two_ends.
Proof.
  assert (D : wavDecode (wav_header two_ends ++ wav_data two_ends)
              = Ok (mkAudioBuffer 1 46 24000
                      [map int16_to_float ([-32768; 16383] ++ repeat 0 44)]))
    by (vm_compute; reflexivity).
  split; [|split; [|split; [|split]]].
  - split; [|split].
    + split; [reflexivity|]. repeat constructor.
    + simpl. lia.
    + repeat constructor; simpl; discriminate.
  - unfold fits_header; simpl. lia.
  - unfold two_ends, getChannelData. cbn [channelData nth repeat app].
    repeat (constructor; [vm_compute; discriminate|]). constructor.
  - eexists. eexists.
    split; [apply audioBufferToWav_eq|]. split; [exact D|].
    repeat split.
  - intros tol Ht (out & b' & H1 & H2 & _ & _ & _ & H).
    rewrite audioBufferToWav_eq in H1.
    assert (E : out = wav_header two_ends ++ wav_data two_ends)
      by congruence.
    subst out. clear H1. rewrite D in H2.
    assert (E : b' = mkAudioBuffer 1 46 24000
                       [map int16_to_float ([-32768; 16383] ++ repeat 0 44)])
      by congruence.
    subst b'. clear H2.
    specialize (H 0%nat 0%nat (Nat.lt_0_succ 0) (Nat.lt_0_succ 45)).
    match type of H with
    | (Qabs ?a <= _)%Q =>
        assert (K : (Qabs a == 2)%Q) by (vm_compute; reflexivity)
    end.
    rewrite K in H. lra.
Qed.

(** What the encoder does write comes back: the frame count, the channel
    count and the sample rate exactly, and the sample of frame [p >= 44],
    which the loop stores in slot [p - 44], to within 2/32768 (strictly):
    a non-negative sample is scaled by 32767 and divided by 32768. *)
Lemma written_samples_decoded (b : AudioBuffer) :
  valid_buffer b -> fits_header b ->
  exists out b',
    audioBufferToWav b = Ok out /\ wavDecode out = Ok b' /\
    length b' = length b /\
    numberOfChannels b' = numberOfChannels b /\
    sampleRate b' = sampleRate b /\
    forall i p, (i < numberOfChannels b)%nat -> (44 <= p < length b)%nat ->
      (Qabs (nth p (getChannelData b i) 0
             - nth (p - 44) (getChannelData b' i) 0) < 2 # 32768)%Q.
Proof.
  intros Hv Hf.
  assert (Hc : (1 <= numberOfChannels b)%nat) by apply Hv.
  eexists. eexists.
  split; [apply audioBufferToWav_eq|].
  split; [apply (wavDecode_encoded b Hc Hf)|].
  cbn [length numberOfChannels sampleRate].
  repeat (split; [reflexivity|]).
  intros i p Hi Hp. unfold getChannelData at 2. cbn [channelData].
  rewrite decoded_sample by lia.
  rewrite wav_data_sample by (try exact Hi; lia).
  apply quantize_error. apply valid_sample. exact Hv.
Qed.

Lemma scenario_B_valid : valid_buffer scenario_B /\ fits_header scenario_B.
Proof.
  split.
  - split; [|split].
    + split; [reflexivity|]. repeat constructor.
    + simpl. lia.
    + repeat constructor; simpl; discriminate.
  - unfold fits_header; simpl. lia.
Qed.

Lemma constant_buffer_valid (x : Q) :
  (-1 <= x <= 1)%Q ->
  valid_buffer (constant_buffer x) /\ fits_header (constant_buffer x).
Proof.
  intro Hx. split.
  - split; [|split].
    + split; [reflexivity|]. repeat constructor.
    + simpl. lia.
    + constructor; [|constructor]. apply Forall_forall.
      intros y Hy. apply repeat_spec in Hy. subst y. exact Hx.
  - unfold fits_header; simpl. lia.
Qed.

(** The two factors alone cost more than one step on a sample close to
    1.0: 65535/65536 is stored as 32766 and comes back as 32766/32768,
    which is 1.5/32768 away. *)
Lemma one_step_exceeded :
  valid_buffer (constant_buffer (65535 # 65536)) /\
  ~ roundtrip_within (1 # 32768) (constant_buffer (65535 # 65536)).
Proof.
  split.
  - apply constant_buffer_valid. split; discriminate.
  - intros (out & b' & H1 & H2 & _ & _ & _ & H).
    rewrite audioBufferToWav_eq in H1.
    assert (E : out = wav_header (constant_buffer (65535 # 65536))
                      ++ wav_data (constant_buffer (65535 # 65536)))
      by congruence.
    subst out. clear H1.
    vm_compute in H2. injection H2 as E.
    specialize (H 0%nat 0%nat (Nat.lt_0_succ 0) (Nat.lt_0_succ 44)).
    rewrite <- E in H. vm_compute in H. apply H. reflexivity.
Qed.

(** ** The PCM decoder *)

Lemma typed_set_length (cd : list Q) (i : nat) (v : Q) :
  Datatypes.length (typed_set cd i v) = Datatypes.length cd.
Proof.
  unfold typed_set. destruct (i <? Datatypes.length cd)%nat eqn:E.
  - apply Nat.ltb_lt in E.
    rewrite length_app, length_firstn. cbn [Datatypes.length].
    rewrite length_skipn. lia.
  - reflexivity.
Qed.

Lemma firstn_snoc {A : Type} (l : list A) (n : nat) (d : A) :
  (n < Datatypes.length l)%nat ->
  firstn (S n) l = firstn n l ++ [nth n l d].
Proof.
  revert n. induction l as [|a l IH]; intros n H.
  - simpl in H. lia.
  - destruct n as [|n]; [reflexivity|].
    cbn [firstn nth app]. f_equal. rewrite <- IH by (simpl in H; lia).
    reflexivity.
Qed.

(** The first [n] rounds of the inner loop. *)
Lemma fill_prefix (dataInt16 : list Z) (cd : list Q) (n : nat) :
  (n <= Datatypes.length dataInt16)%nat ->
  fold_left
    (fun cd i => typed_set cd i (int16_to_float (nth i dataInt16 0)))
    (seq 0 n) cd
  = map int16_to_float (firstn (Nat.min n (Datatypes.length cd)) dataInt16)
    ++ skipn (Nat.min n (Datatypes.length cd)) cd.
Proof.
  induction n as [|n IH]; intro Hn.
  - reflexivity.
  - rewrite seq_S, fold_left_app, IH by lia. cbn [fold_left Nat.add].
    set (X := map int16_to_float
                (firstn (Nat.min n (Datatypes.length cd)) dataInt16)
              ++ skipn (Nat.min n (Datatypes.length cd)) cd).
    assert (HX : Datatypes.length X = Datatypes.length cd).
    { subst X. rewrite length_app, length_map, length_firstn, length_skipn.
      lia. }
    unfold typed_set. rewrite HX.
    destruct (n <? Datatypes.length cd)%nat eqn:E.
    + apply Nat.ltb_lt in E.
      rewrite (Nat.min_l (S n)) by lia.
      subst X. rewrite (Nat.min_l n) by lia.
      assert (Hl : Datatypes.length (map int16_to_float (firstn n dataInt16))
                   = n)
        by (rewrite length_map, length_firstn; lia).
      rewrite firstn_app, Hl, Nat.sub_diag, firstn_O, app_nil_r.
      rewrite firstn_all2 by lia.
      rewrite skipn_app, Hl, skipn_all2 by lia.
      replace (S n - n)%nat with 1%nat by lia.
      rewrite skipn_skipn. cbn [app Nat.add].
      rewrite (firstn_snoc dataInt16 n 0) by lia.
      rewrite map_app, <- app_assoc. reflexivity.
    + apply Nat.ltb_ge in E.
      subst X. rewrite !Nat.min_r by lia. reflexivity.
Qed.

(** The inner loop stores the first samples of the sequence, as many as
    the channel has frames; the later writes fall past its end. *)
Lemma fill_channel_eq (dataInt16 : list Z) (cd : list Q) :
  (Datatypes.length cd <= Datatypes.length dataInt16)%nat ->
  fill_channel dataInt16 cd
  = map int16_to_float (firstn (Datatypes.length cd) dataInt16).
Proof.
  intro H. unfold fill_channel. rewrite fill_prefix by lia.
  rewrite Nat.min_r by lia. rewrite skipn_all. apply app_nil_r.
Qed.

(** The first [k] rounds of the outer loop on a fresh buffer. *)
Lemma fill_buffer_prefix (dataInt16 : list Z) (ch frames : nat) (rate : Z)
  (k : nat) :
  (frames <= Datatypes.length dataInt16)%nat -> (k <= ch)%nat ->
  fold_left
    (fun b channel =>
       mkAudioBuffer (numberOfChannels b) (length b) (sampleRate b)
         (set_channel (channelData b) channel
            (fill_channel dataInt16 (getChannelData b channel))))
    (seq 0 k)
    (mkAudioBuffer ch frames rate (repeat (repeat 0%Q frames) ch))
  = mkAudioBuffer ch frames rate
      (repeat (map int16_to_float (firstn frames dataInt16)) k
       ++ repeat (repeat 0%Q frames) (ch - k)).
Proof.
  intros Hf. induction k as [|k IH]; intro Hk.
  - cbn [seq fold_left repeat app]. rewrite Nat.sub_0_r. reflexivity.
  - rewrite seq_S, fold_left_app, IH by lia.
    cbn [fold_left Nat.add numberOfChannels length sampleRate channelData].
    f_equal.
    set (filled := map int16_to_float (firstn frames dataInt16)).
    set (zero := repeat 0%Q frames).
    replace (ch - k)%nat with (S (ch - S k)) by lia.
    unfold getChannelData, set_channel. cbn [channelData].
    assert (Hl : Datatypes.length (repeat filled k) = k)
      by apply repeat_length.
    rewrite app_nth2 by (rewrite Hl; lia).
    rewrite Hl, Nat.sub_diag. cbn [repeat nth].
    rewrite firstn_app, Hl, Nat.sub_diag, firstn_O, app_nil_r.
    rewrite firstn_all2 by lia.
    rewrite skipn_app, Hl, skipn_all2 by lia.
    replace (S k - k)%nat with 1%nat by lia. cbn [skipn app].
    rewrite fill_channel_eq by (subst zero; rewrite repeat_length; exact Hf).
    subst zero. rewrite repeat_length. fold filled.
    cbn [repeat app]. rewrite app_comm_cons, (repeat_cons k filled).
    rewrite <- app_assoc. reflexivity.
Qed.

Lemma fill_buffer_eq (dataInt16 : list Z) (ch frames : nat) (rate : Z) :
  (frames <= Datatypes.length dataInt16)%nat ->
  fill_buffer ch dataInt16
    (mkAudioBuffer ch frames rate (repeat (repeat 0%Q frames) ch))
  = mkAudioBuffer ch frames rate
      (repeat (map int16_to_float (firstn frames dataInt16)) ch).
Proof.
  intro H. unfold fill_buffer.
  rewrite (fill_buffer_prefix dataInt16 ch frames rate ch H (Nat.le_refl ch)).
  rewrite Nat.sub_diag. cbn [repeat]. rewrite app_nil_r. reflexivity.
Qed.

Lemma Int16Array_ok (data : Uint8Array) :
  wf_view data -> (byteOffset data mod 2 = 0)%nat ->
  Int16Array (buffer data) (byteOffset data) (byteLength data / 2)
  = Ok (samples_of data).
Proof.
  intros Hw He. unfold Int16Array.
  replace (byteOffset data mod 2 =? 0)%nat with true
    by (symmetry; apply Nat.eqb_eq; exact He).
  cbn [negb].
  replace (Datatypes.length (buffer data)
           <? byteOffset data + 2 * (byteLength data / 2))%nat with false.
  - reflexivity.
  - symmetry. apply Nat.ltb_ge. unfold wf_view in Hw.
    pose proof (Nat.Div0.mul_div_le (byteLength data) 2). lia.
Qed.

Lemma samples_of_length (data : Uint8Array) :
  Datatypes.length (samples_of data) = (byteLength data / 2)%nat.
Proof. unfold samples_of. now rewrite length_map, length_seq. Qed.

(** Every outcome of [decodeAudioData] on a well-formed window at an even
    offset: the host refuses a request without channels, without frames
    or outside its ranges; otherwise every channel receives the first
    [frames] samples of the sequence. *)
Lemma decodeAudioData_eq (host_supports : nat -> nat -> Z -> bool)
  (data : Uint8Array) (rate : Z) (ch : nat) :
  wf_view data -> (byteOffset data mod 2 = 0)%nat ->
  let frames := (byteLength data / 2 / ch)%nat in
  decodeAudioData host_supports data rate ch
  = if (ch =? 0)%nat || (frames =? 0)%nat || (rate <=? 0)
       || negb (host_supports ch frames rate)
    then Err NotSupportedError
    else Ok (mkAudioBuffer ch frames rate
               (repeat (map int16_to_float (firstn frames (samples_of data)))
                       ch)).
Proof.
  intros Hw He frames. unfold decodeAudioData.
  rewrite Int16Array_ok by assumption. cbn [bind].
  rewrite samples_of_length. fold frames. unfold createBuffer.
  destruct ((ch =? 0)%nat || (frames =? 0)%nat || (rate <=? 0)
            || negb (host_supports ch frames rate)) eqn:E.
  - reflexivity.
  - cbn [bind]. f_equal. apply fill_buffer_eq.
    rewrite samples_of_length. subst frames.
    destruct ch as [|ch]; [simpl; lia|].
    apply Nat.Div0.div_le_upper_bound. nia.
Qed.

Lemma skipn_two (l : list Z) (p : nat) :
  (p + 2 <= Datatypes.length l)%nat ->
  firstn 2 (skipn p l) = [nth p l 0; nth (p + 1) l 0].
Proof.
  revert p. induction l as [|a l IH]; intros p H.
  - simpl in H. lia.
  - destruct p as [|p].
    + destruct l as [|a' l]; [simpl in H; lia|]. reflexivity.
    + cbn [skipn Nat.add nth]. apply IH. simpl in H. lia.
Qed.

(** An element of the [Int16Array]: two bytes, the low one first, read
    as a signed 16-bit integer. *)
Lemma getInt16_bytes (l : list Z) (p : nat) :
  (p + 2 <= Datatypes.length l)%nat ->
  DataView.getInt16 l p = JS.ToInt16 (nth p l 0 + 256 * nth (p + 1) l 0).
Proof.
  intro H. unfold DataView.getInt16, DataView.load.
  rewrite skipn_two by exact H. cbn [DataView.le_value].
  f_equal. lia.
Qed.

Lemma samples_of_nth (data : Uint8Array) (k : nat) :
  wf_view data -> (k < byteLength data / 2)%nat ->
  nth k (samples_of data) 0
  = JS.ToInt16 (nth (byteOffset data + 2 * k) (buffer data) 0
                + 256 * nth (byteOffset data + 2 * k + 1) (buffer data) 0).
Proof.
  intros Hw Hk. unfold samples_of.
  set (g := fun i =>
              DataView.getInt16 (buffer data) (byteOffset data + 2 * i)).
  rewrite (nth_indep _ 0 (g 0%nat)) by (rewrite length_map, length_seq; exact Hk).
  rewrite map_nth, seq_nth by exact Hk. subst g. cbn beta.
  apply getInt16_bytes. unfold wf_view in Hw.
  pose proof (Nat.Div0.mul_div_le (byteLength data) 2). lia.
Qed.

Lemma nth_repeat_lt {A : Type} (x d : A) (n i : nat) :
  (i < n)%nat -> nth i (repeat x n) d = x.
Proof.
  intro H. rewrite (nth_indep _ d x) by (rewrite repeat_length; exact H).
  apply nth_repeat.
Qed.

Lemma deinterleave_mono (l : list Z) :
  spec_deinterleave l 1 0 = map int16_to_float l.
Proof.
  unfold spec_deinterleave. rewrite Nat.div_1_r.
  apply (nth_ext _ _ 0%Q 0%Q).
  - now rewrite !length_map, length_seq.
  - intros n Hn. rewrite length_map, length_seq in Hn.
    set (g := fun f => int16_to_float (nth (f * 1 + 0) l 0)).
    rewrite (nth_indep (map g _) 0%Q (g 0%nat))
      by (rewrite length_map, length_seq; exact Hn).
    rewrite map_nth, seq_nth by exact Hn. subst g. cbn beta.
    rewrite (nth_indep (map _ l) 0%Q (int16_to_float 0))
      by (rewrite length_map; exact Hn).
    rewrite map_nth. do 2 f_equal. lia.
Qed.

(** ** C3: what the decoder stores in each channel *)

(** C3, as amended.  For every non-empty byte buffer whose length is a
    multiple of [2 * channelCount] (and a request the host accepts), the
    decoder reads the bytes as little-endian signed 16-bit integers,
    divides each by 32768, and stores in every channel the first
    [frameCount] samples of the sequence, in order.  It does not
    de-interleave; with one channel this is the layout of the
    specification. *)
Theorem decode_layout (host_supports : nat -> nat -> Z -> bool)
  (data : Uint8Array) (rate : Z) (ch : nat) :
  wf_view data -> (byteOffset data mod 2 = 0)%nat ->
  (1 <= ch)%nat -> 0 < rate ->
  (byteLength data mod (2 * ch) = 0)%nat -> (0 < byteLength data)%nat ->
  host_supports ch (byteLength data / 2 / ch)%nat rate = true ->
  exists b,
    decodeAudioData host_supports data rate ch = Ok b /\
    numberOfChannels b = ch /\
    length b = (byteLength data / (2 * ch))%nat /\
    sampleRate b = rate /\
    (forall k, (k < byteLength data / 2)%nat ->
       nth k (samples_of data) 0
       = JS.ToInt16
           (nth (byteOffset data + 2 * k) (buffer data) 0
            + 256 * nth (byteOffset data + 2 * k + 1) (buffer data) 0)) /\
    (forall c, (c < ch)%nat ->
       getChannelData b c
       = map int16_to_float (firstn (length b) (samples_of data))) /\
    (ch = 1%nat ->
       getChannelData b 0 = spec_deinterleave (samples_of data) 1 0).
Proof.
  intros Hw He Hc Hr Hm Hl Hh.
  assert (Hfr : (byteLength data / 2 / ch = byteLength data / (2 * ch))%nat)
    by apply Nat.Div0.div_div.
  assert (Hpos : (1 <= byteLength data / (2 * ch))%nat).
  { apply Nat.Div0.mod_divides in Hm. destruct Hm as [q Hq].
    rewrite Hq, Nat.mul_comm, Nat.div_mul by lia.
    destruct q; [lia|lia]. }
  pose proof (decodeAudioData_eq host_supports data rate ch Hw He) as D.
  cbv zeta in D. rewrite Hh in D.
  replace (ch =? 0)%nat with false in D by (symmetry; apply Nat.eqb_neq; lia).
  replace (byteLength data / 2 / ch =? 0)%nat with false in D
    by (symmetry; apply Nat.eqb_neq; lia).
  replace (rate <=? 0) with false in D by (symmetry; apply Z.leb_gt; lia).
  cbn [orb negb] in D.
  eexists. split; [exact D|].
  cbn [numberOfChannels length sampleRate].
  split; [reflexivity|]. split; [exact Hfr|]. split; [reflexivity|].
  split; [intros k Hk; apply samples_of_nth; assumption|].
  split.
  - intros c Hcc. unfold getChannelData. cbn [channelData].
    apply nth_repeat_lt. exact Hcc.
  - intros ->. unfold getChannelData. cbn [channelData repeat nth].
    rewrite deinterleave_mono. f_equal.
    rewrite Nat.div_1_r. apply firstn_all2.
    rewrite samples_of_length. lia.
Qed.

Lemma decode_layout_witness :
  exists b,
    decodeAudioData any_host stereo_bytes 24000 2 = Ok b /\
    length b = 2%nat /\
    getChannelData b 1 = [1 # 32768; 2 # 32768]%Q.
Proof.
  destruct (decode_layout any_host stereo_bytes 24000 2)
    as (b & Hb & _ & Hl & _ & _ & Hc & _).
  - unfold wf_view. simpl. lia.
  - reflexivity.
  - lia.
  - lia.
  - reflexivity.
  - simpl. lia.
  - reflexivity.
  - exists b. split; [exact Hb|]. split; [exact Hl|].
    rewrite (Hc 1%nat) by lia. rewrite Hl. reflexivity.
Defined.

(** C3, as the specification words it, fails with two channels: both
    channels receive the samples 1, 2 of the sequence 1, 2, 3, 4, where
    de-interleaving gives 1, 3 and 2, 4. *)
Lemma deinterleave_counterexample :
  ~ decodes_deinterleaved any_host stereo_bytes 24000 2.
Proof.
  intro H. destruct (H eq_refl) as (b & Hb & Hc).
  vm_compute in Hb. injection Hb as E.
  specialize (Hc 0%nat (Nat.lt_0_succ 1)). rewrite <- E in Hc.
  vm_compute in Hc. discriminate Hc.
Qed.

(** ** C4: lengths that are not a whole number of frames *)

(** C4, as amended.  The decoder checks no length and raises no
    [MalformedAudioError].  When the byte length is not a multiple of
    [2 * channelCount], the bytes after the last whole frame are left
    unread: the result has [byteLength / 2 / channelCount] frames (both
    quotients rounded down), each channel holding the first samples of
    the sequence; when that count is 0 the host's [createBuffer] refuses
    the request with [NotSupportedError]. *)
Theorem partial_frames_ignored (host_supports : nat -> nat -> Z -> bool)
  (data : Uint8Array) (rate : Z) (ch : nat) :
  wf_view data -> (byteOffset data mod 2 = 0)%nat ->
  (1 <= ch)%nat -> 0 < rate ->
  (byteLength data mod (2 * ch) <> 0)%nat ->
  let frames := (byteLength data / 2 / ch)%nat in
  decodeAudioData host_supports data rate ch <> Err MalformedAudioError /\
  (2 * ch * frames < byteLength data)%nat /\
  (frames = 0%nat ->
   decodeAudioData host_supports data rate ch = Err NotSupportedError) /\
  ((1 <= frames)%nat -> host_supports ch frames rate = true ->
   exists b,
     decodeAudioData host_supports data rate ch = Ok b /\
     numberOfChannels b = ch /\ length b = frames /\ sampleRate b = rate /\
     forall c, (c < ch)%nat ->
       getChannelData b c
       = map int16_to_float (firstn frames (samples_of data))).
Proof.
  intros Hw He Hc Hr Hm frames.
  pose proof (decodeAudioData_eq host_supports data rate ch Hw He) as D.
  cbv zeta in D. fold frames in D.
  split; [|split; [|split]].
  - rewrite D.
    destruct ((ch =? 0)%nat || (frames =? 0)%nat || (rate <=? 0)
              || negb (host_supports ch frames rate)); discriminate.
  - subst frames. rewrite Nat.Div0.div_div.
    pose proof (Nat.Div0.div_mod (byteLength data) (2 * ch)). lia.
  - intro Hz. rewrite D, Hz. cbn [Nat.eqb orb].
    rewrite orb_true_r. reflexivity.
  - intros Hf Hh. rewrite Hh in D.
    replace (ch =? 0)%nat with false in D
      by (symmetry; apply Nat.eqb_neq; lia).
    replace (frames =? 0)%nat with false in D
      by (symmetry; apply Nat.eqb_neq; lia).
    replace (rate <=? 0) with false in D by (symmetry; apply Z.leb_gt; lia).
    cbn [orb negb] in D.
    eexists. split; [exact D|].
    cbn [numberOfChannels length sampleRate].
    repeat (split; [reflexivity|]).
    intros c Hcc. unfold getChannelData. cbn [channelData].
    apply nth_repeat_lt. exact Hcc.
Qed.

Lemma partial_frames_ignored_witness :
  exists b,
    decodeAudioData any_host three_bytes 24000 1 = Ok b /\
    length b = 1%nat /\
    getChannelData b 0 = [513 # 32768]%Q.
Proof.
  destruct (partial_frames_ignored any_host three_bytes 24000 1)
    as (_ & _ & _ & H).
  - unfold wf_view. simpl. lia.
  - reflexivity.
  - lia.
  - lia.
  - simpl. lia.
  - destruct H as (b & Hb & _ & Hl & _ & Hc).
    + simpl. lia.
    + reflexivity.
    + exists b. split; [exact Hb|]. split; [exact Hl|].
      rewrite (Hc 0%nat) by lia. reflexivity.
Defined.

(** C4, as the specification words it, fails: three bytes of mono audio
    are decoded to a buffer of one frame. *)
Lemma malformed_counterexample :
  ~ rejects_partial_frames any_host three_bytes 24000 1.
Proof.
  intro H. unfold rejects_partial_frames in H.
  assert (E : decodeAudioData any_host three_bytes 24000 1
              = Err MalformedAudioError).
  { apply H. simpl. lia. }
  vm_compute in E. discriminate E.
Qed.

(** ** C5: the empty input *)

(** C5, as amended.  A zero-length byte buffer yields no Sample Buffer:
    the decoder asks the host for a buffer of zero frames, and the
    host's [createBuffer] refuses a zero frame count with
    [NotSupportedError] (a window at an odd offset, or one that starts
    past the end of its buffer, is refused earlier by the [Int16Array]
    constructor with [RangeError]). *)
Theorem empty_input_refused (host_supports : nat -> nat -> Z -> bool)
  (bytes : list Z) (off : nat) (rate : Z) (ch : nat) :
  decodeAudioData host_supports (mkUint8Array bytes off 0) rate ch
  = Err (if negb (off mod 2 =? 0)%nat
            || (Datatypes.length bytes <? off)%nat
         then RangeError else NotSupportedError).
Proof.
  unfold decodeAudioData, Int16Array. cbn [buffer byteOffset byteLength].
  change (0 / 2)%nat with 0%nat. rewrite Nat.mul_0_r, Nat.add_0_r.
  destruct (negb (off mod 2 =? 0)%nat); [reflexivity|].
  destruct (Datatypes.length bytes <? off)%nat; [reflexivity|].
  cbn [orb seq map bind Datatypes.length]. unfold createBuffer.
  rewrite Nat.Div0.div_0_l. cbn [Nat.eqb orb].
  rewrite orb_true_r. reflexivity.
Qed.

(** C5, as the specification words it, fails: the empty array that
    [decodeBase64] builds from an empty string is refused. *)
Lemma empty_counterexample :
  ~ empty_gives_empty any_host (Uint8Array_of []) 24000 1.
Proof.
  intro H. destruct (H eq_refl) as (b & Hb & _).
  vm_compute in Hb. discriminate Hb.
Qed.

(** ** The player between [playAudio] and the next call *)

Lemma frames_app (s : Player.t) (l : list Q) (dt : Q) :
  Player.frames s (l ++ [dt]) = Player.frame (Player.frames s l) dt.
Proof. unfold Player.frames. rewrite fold_left_app. reflexivity. Qed.

Lemma total_app (l : list Q) (dt : Q) :
  Player.total (l ++ [dt]) == Player.total l + dt.
Proof.
  induction l as [|a l IH]; simpl.
  - ring.
  - rewrite IH. ring.
Qed.

(** While frames follow a [playAudio], either the session is still
    playing from the same anchor and cursor, or a frame has ended it. *)
Lemma frames_state (s0 : Player.t) (rendered : bool) (dts : list Q) :
  let s := Player.frames (Player.playAudio rendered s0) dts in
  (Player.isPlaying s = false /\ Player.pausedTime s = 0%Q /\
   Player.currentTime s = 0%Q)
  \/
  (Player.isPlaying s = true /\
   Player.pausedTime s = Player.pausedTime s0 /\
   Player.speed s = Player.speed s0 /\
   Player.duration s = Player.duration s0 /\
   Player.audioBuffer_duration s = Player.audioBuffer_duration s0 /\
   (exists n, Player.sourceNode s = Some n) /\
   exists now,
     Player.audioContext s = Some now /\
     now - Player.startTime s == Player.total dts).
Proof.
  induction dts as [|dt l IH] using rev_ind; cbv zeta.
  - right. unfold Player.frames, Player.playAudio.
    cbn [fold_left Player.isPlaying Player.pausedTime Player.speed
         Player.duration Player.audioContext Player.startTime
         Player.audioBuffer_duration Player.sourceNode].
    repeat split.
    + eexists. reflexivity.
    + eexists. split; [reflexivity|]. simpl. ring.
  - rewrite frames_app. cbv zeta in IH.
    set (s := Player.frames (Player.playAudio rendered s0) l) in *.
    unfold Player.frame, Player.updateProgress, Player.advance.
    cbn [Player.isPlaying Player.audioContext Player.startTime
         Player.pausedTime Player.speed Player.duration].
    destruct IH
      as [(Hp & Hc & Ht)
         | (Hp & Hc & Hr & Hd & Hb & (n & Hs) & now & Hn & He)].
    + left. rewrite Hp.
      cbn [Player.isPlaying Player.pausedTime Player.currentTime].
      auto.
    + rewrite Hp, Hn. cbn [option_map].
      destruct (JS.Qlt_bool _ _).
      * right.
        cbn [Player.isPlaying Player.pausedTime Player.speed
             Player.duration Player.audioContext Player.startTime
             Player.audioBuffer_duration Player.sourceNode].
        repeat split; try assumption.
        -- exists n. exact Hs.
        -- exists (now + dt)%Q. split; [reflexivity|].
           rewrite total_app, <- He. ring.
      * left.
        cbn [Player.isPlaying Player.pausedTime Player.currentTime].
        auto.
Qed.

(** ** C6: the cursor after a pause *)

(** C6, as amended.  Play from a cursor [c] at rate [r]; let frames be
    drawn and [t] seconds of wall-clock time pass in all; if the session
    is still Playing, a pause leaves the cursor at [c + t * r] when that
    does not exceed the buffer duration, and at 0 when it does.  From
    cursor 0 this is [r * t]: 0.5 s at rate 1.0 after 500 ms, 1.0 s at
    rate 2.0 after 500 ms, if the buffer is that long. *)
Theorem pause_after_play (s0 : Player.t) (rendered : bool)
  (dts : list Q) (dt : Q) :
  let s1 :=
    Player.advance dt (Player.frames (Player.playAudio rendered s0) dts) in
  Player.isPlaying s1 = true ->
  let s := Player.pauseAudio s1 in
  let played :=
    (Player.pausedTime s0 + (Player.total dts + dt) * Player.speed s0)%Q in
  Player.isPlaying s = false /\
  ((played <= Player.audioBuffer_duration s0)%Q ->
   Player.pausedTime s == played) /\
  ((Player.audioBuffer_duration s0 < played)%Q ->
   Player.pausedTime s == 0).
Proof.
  cbv zeta.
  pose proof (frames_state s0 rendered dts) as F. cbv zeta in F.
  set (s := Player.frames (Player.playAudio rendered s0) dts) in *.
  unfold Player.pauseAudio, Player.advance.
  cbn [Player.sourceNode Player.audioContext Player.startTime
       Player.pausedTime Player.speed Player.audioBuffer_duration
       Player.isPlaying].
  intro Hplaying.
  destruct F
    as [(Hp & _) | (_ & Hc & Hr & _ & Hb & (n & Hs) & now & Hn & He)];
    [congruence|].
  rewrite Hs, Hn, Hc, Hr, Hb. cbn [option_map Player.isPlaying Player.pausedTime].
  set (played' := (Player.pausedTime s0
                   + (now + dt - Player.startTime s) * Player.speed s0)%Q).
  assert (E : played'
              == Player.pausedTime s0
                 + (Player.total dts + dt) * Player.speed s0).
  { subst played'. rewrite <- He. ring. }
  split; [reflexivity|]. split; intro H.
  - destruct (JS.Qlt_bool (Player.audioBuffer_duration s0) played') eqn:L.
    + apply Qlt_bool_true in L. rewrite E in L. lra.
    + exact E.
  - destruct (JS.Qlt_bool (Player.audioBuffer_duration s0) played') eqn:L.
    + reflexivity.
    + apply Qlt_bool_false in L. rewrite E in L. lra.
Qed.

(** Scenario C: rate 1.0, 500 ms, on a buffer of two seconds. *)
Lemma pause_after_play_witness :
  Player.pausedTime
    (Player.pauseAudio
       (Player.advance (1 # 4)
          (Player.frames (Player.playAudio false (Player.mounted false 2 1 0))
             [1 # 4])))
  == 1 # 2.
Proof.
  destruct (pause_after_play (Player.mounted false 2 1 0) false
              [1 # 4] (1 # 4) eq_refl)
    as (_ & H & _).
  rewrite H.
  - reflexivity.
  - vm_compute. discriminate.
Defined.

(** Scenario D: rate 2.0, 500 ms. *)
Lemma scenario_D :
  Player.pausedTime
    (Player.pauseAudio
       (Player.advance (1 # 2)
          (Player.playAudio false (Player.mounted false 2 2 0))))
  == 1.
Proof. reflexivity. Qed.

(** C6, as the claim words it, fails near the end of the buffer: the
    session is Playing, 1.005 s have elapsed on a buffer of one second,
    and the pause leaves the cursor at 0, not at 1.005. *)
Lemma pause_counterexample : ~ Player.pause_adds_elapsed Player.late_pause.
Proof.
  intro H. specialize (H eq_refl _ eq_refl).
  vm_compute in H. discriminate H.
Qed.

(** ** C7: the cursor stays within the buffer *)

Lemma inv_mounted (autoPlay : bool) (d r p : Q) :
  (0 <= d)%Q -> (0 <= r)%Q -> inv d (Player.mounted autoPlay d r p).
Proof.
  intros Hd Hr. unfold Player.mounted, Player.load, Player.initial.
  destruct autoPlay; unfold inv, Player.playAudio;
    cbn [Player.audioBuffer_duration Player.speed Player.pausedTime
         Player.audioContext Player.startTime Player.isPlaying];
    (split; [reflexivity|]); (split; [exact Hr|]); (split; [lra|]).
  - intros now E. injection E as <-. lra.
  - intros now E. discriminate E.
Qed.

Lemma inv_step (d : Q) (s : Player.t) (e : Player.event) :
  (0 <= d)%Q -> Player.event_ok e -> inv d s -> inv d (Player.step s e).
Proof.
  intros Hd He (Hb & Hr & Hc & Ha).
  destruct e as [ | | | | | captured | dt | r]; cbn [Player.step].
  - (* Play *)
    unfold inv, Player.playAudio.
    cbn [Player.audioBuffer_duration Player.speed Player.pausedTime
         Player.audioContext Player.startTime].
    repeat split; try assumption; try apply Hc.
    intros now E. injection E as <-. lra.
  - (* Pause *)
    unfold Player.pauseAudio.
    destruct (Player.sourceNode s) as [n|] eqn:En;
      [|repeat split; try assumption; apply Hc].
    destruct (Player.audioContext s) as [now|] eqn:Ec;
      [|repeat split; try assumption; try apply Hc;
        intros now E; try rewrite Ec in E; discriminate E].
    unfold inv.
    cbn [Player.audioBuffer_duration Player.speed Player.pausedTime
         Player.audioContext Player.startTime].
    split; [exact Hb|]. split; [exact Hr|]. split.
    + rewrite Hb.
      assert (Hel : (0 <= (now - Player.startTime s) * Player.speed s)%Q).
      { apply Qmult_le_0_compat; [|exact Hr].
        specialize (Ha now eq_refl). lra. }
      destruct (JS.Qlt_bool d
                  (Player.pausedTime s
                   + (now - Player.startTime s) * Player.speed s)) eqn:L.
      * lra.
      * apply Qlt_bool_false in L. lra.
    + intros now' E. try rewrite Ec in E. injection E as <-.
      apply Ha. reflexivity.
  - (* Stop *)
    unfold inv, Player.stopAudio.
    cbn [Player.audioBuffer_duration Player.speed Player.pausedTime
         Player.audioContext Player.startTime].
    repeat split; try assumption; try lra.
  - (* Restart *)
    unfold inv, Player.restart, Player.playAudio, Player.stopAudio.
    cbn [Player.audioBuffer_duration Player.speed Player.pausedTime
         Player.audioContext Player.startTime].
    repeat split; try assumption; try lra.
    intros now E. injection E as <-. lra.
  - (* Tick *)
    unfold Player.updateProgress.
    destruct (Player.isPlaying s);
      [|repeat split; try assumption; apply Hc].
    destruct (Player.audioContext s) as [now|] eqn:Ec;
      [|repeat split; try assumption; try apply Hc;
        intros now E; try rewrite Ec in E; discriminate E].
    destruct (JS.Qlt_bool _ _); unfold inv;
      cbn [Player.audioBuffer_duration Player.speed Player.pausedTime
           Player.audioContext Player.startTime];
      repeat split; try assumption; try apply Hc; try lra;
      intros now' E; try rewrite Ec in E; injection E as <-;
      apply Ha; reflexivity.
  - (* Ended *)
    unfold Player.onended. destruct captured;
      [|repeat split; try assumption; apply Hc].
    unfold inv.
    cbn [Player.audioBuffer_duration Player.speed Player.pausedTime
         Player.audioContext Player.startTime].
    repeat split; try assumption; try lra.
  - (* Advance *)
    cbn [Player.event_ok] in He.
    unfold inv, Player.advance.
    cbn [Player.audioBuffer_duration Player.speed Player.pausedTime
         Player.audioContext Player.startTime].
    repeat split; try assumption; try apply Hc.
    intros now E.
    destruct (Player.audioContext s) as [now0|] eqn:Ec; [|discriminate E].
    cbn [option_map] in E. injection E as <-.
    specialize (Ha now0 eq_refl). lra.
  - (* SetSpeed *)
    cbn [Player.event_ok] in He.
    unfold inv, Player.set_speed.
    cbn [Player.audioBuffer_duration Player.speed Player.pausedTime
         Player.audioContext Player.startTime].
    repeat split; try assumption; try apply Hc. lra.
Qed.

Lemma inv_run (d : Q) (es : list Player.event) :
  (0 <= d)%Q -> Forall Player.event_ok es ->
  forall s, inv d s -> inv d (Player.run s es).
Proof.
  intros Hd Hes. induction Hes as [|e es He _ IH]; intros s Hs.
  - exact Hs.
  - cbn [Player.run fold_left]. apply IH. apply inv_step; assumption.
Qed.

(** C7.  From the mounted, stopped player, after any sequence of play,
    pause, stop and restart operations, animation frames, ended events,
    non-negative advances of the clock and rate changes within
    [0.5, 2.0], the buffer-time cursor lies in [0, buffer duration]. *)
Theorem cursor_within_buffer (autoPlay : bool) (d r p : Q)
  (es : list Player.event) :
  (0 <= d)%Q -> (1 # 2 <= r <= 2)%Q -> Forall Player.event_ok es ->
  let s := Player.run (Player.mounted autoPlay d r p) es in
  (0 <= Player.pausedTime s <= Player.audioBuffer_duration s)%Q.
Proof.
  intros Hd Hr Hes s.
  assert (I : inv d s).
  { apply inv_run; [exact Hd | exact Hes |].
    apply inv_mounted; [exact Hd | lra]. }
  destruct I as (Hb & _ & Hc & _). rewrite Hb. exact Hc.
Qed.

Lemma cursor_within_buffer_witness :
  let s := Player.run (Player.mounted false 1 2 0)
             [Player.Play; Player.Advance (3 # 10); Player.Pause;
              Player.Play; Player.Advance (3 # 10); Player.Pause] in
  (0 <= Player.pausedTime s <= Player.audioBuffer_duration s)%Q.
Proof.
  apply (cursor_within_buffer false 1 2 0).
  - discriminate.
  - split; discriminate.
  - repeat constructor; discriminate.
Defined.

(** ** C8: stopping twice *)

(** C8.  A second [stopAudio] changes nothing: the whole record, and so
    its state label, cursor and displayed time, is what the first call
    left.  The call cannot fail (the handler catches what [stop()]
    throws on a source that has already stopped), and on the player that
    was never started it changes nothing at all. *)
Theorem stop_idempotent (s : Player.t) :
  Player.stopAudio (Player.stopAudio s) = Player.stopAudio s /\
  Player.state (Player.stopAudio s) = Player.Stopped /\
  Player.pausedTime (Player.stopAudio s) = 0%Q /\
  Player.currentTime (Player.stopAudio s) = 0%Q /\
  (forall d r p,
     Player.stopAudio (Player.mounted false d r p)
     = Player.mounted false d r p).
Proof.
  split; [|repeat split].
  unfold Player.stopAudio.
  cbn [Player.audioBuffer_duration Player.speed Player.pitch
       Player.duration Player.audioContext Player.sourceNode
       Player.startTime].
  f_equal. destruct (Player.sourceNode s) as [n|]; reflexivity.
Qed.

(** ** C9: the natural end of the buffer *)

(** C9.  After [playAudio], once the frames drawn have carried the
    played buffer time (cursor plus elapsed time multiplied by the rate)
    to the duration or beyond, the session is Stopped with its cursor
    and its displayed time at 0: the frame callback [updateProgress]
    ends it, and no call of [stopAudio] or [pauseAudio] is involved. *)
Theorem natural_end_stops (s0 : Player.t) (rendered : bool)
  (dts : list Q) (dt : Q) :
  (Player.duration s0
   <= Player.pausedTime s0 + Player.total (dts ++ [dt]) * Player.speed s0)%Q ->
  let s := Player.frames (Player.playAudio rendered s0) (dts ++ [dt]) in
  Player.state s = Player.Stopped /\
  Player.isPlaying s = false /\
  Player.pausedTime s = 0%Q /\
  Player.currentTime s = 0%Q.
Proof.
  intros H s.
  assert (G : Player.isPlaying s = false /\ Player.pausedTime s = 0%Q /\
              Player.currentTime s = 0%Q).
  { subst s. rewrite frames_app.
    pose proof (frames_state s0 rendered dts) as F. cbv zeta in F.
    set (s := Player.frames (Player.playAudio rendered s0) dts) in *.
    unfold Player.frame, Player.updateProgress, Player.advance.
    cbn [Player.isPlaying Player.audioContext Player.startTime
         Player.pausedTime Player.speed Player.duration].
    destruct F
      as [(Hp & Hc & Ht) | (Hp & Hc & Hr & Hd & _ & _ & now & Hn & He)].
    - rewrite Hp.
      cbn [Player.isPlaying Player.pausedTime Player.currentTime]. auto.
    - rewrite Hp, Hn. cbn [option_map].
      destruct (JS.Qlt_bool _ _) eqn:L.
      + exfalso. apply Qlt_bool_true in L.
        rewrite Hc, Hr, Hd in L. rewrite total_app in H.
        assert (E : now + dt - Player.startTime s
                    == Player.total dts + dt) by (rewrite <- He; ring).
        rewrite E in L. lra.
      + cbn [Player.isPlaying Player.pausedTime Player.currentTime]. auto. }
  destruct G as (G1 & G2 & G3).
  repeat split; try assumption.
  unfold Player.state. rewrite G1, G2. reflexivity.
Qed.

(** Scenario E: a one-second buffer at rate 1, frames every 250 ms. *)
Lemma natural_end_stops_witness :
  Player.state
    (Player.frames (Player.playAudio false (Player.mounted false 1 1 0))
       [1 # 4; 1 # 4; 1 # 4; 1 # 4])
  = Player.Stopped.
Proof.
  apply (natural_end_stops (Player.mounted false 1 1 0) false
           [1 # 4; 1 # 4; 1 # 4] (1 # 4)).
  vm_compute. discriminate.
Defined.

(** ** C10: a failed generation *)

(** C10.  When a generation attempt fails at the speech-synthesis call,
    at the base64 decoding or at the PCM decoding, the history is the
    one the attempt started with and the current audio buffer is null;
    the attempt ends not loading, with an error message set. *)
Theorem failed_generation_installs_nothing (w : App.world) (s : App.t)
  (f : App.failure) :
  App.trim_is_empty (App.text s) = false ->
  App.fails_at w s f ->
  let s' := App.handleGenerate w s in
  App.history s' = App.history s /\
  App.currentAudioBuffer s' = None /\
  App.isLoading s' = false /\
  App.error s' <> None.
Proof.
  intros Ht Hf s'. subst s'. unfold App.handleGenerate. rewrite Ht.
  cbn [App.text App.selectedVoice].
  destruct f; cbn [App.fails_at] in Hf.
  - destruct Hf as (e & E1). rewrite E1.
    cbn. repeat split. discriminate.
  - destruct Hf as (b64 & e & E1 & E2). rewrite E1, E2.
    cbn. repeat split. discriminate.
  - destruct Hf as (b64 & bytes & e & E1 & E2 & E3). rewrite E1, E2.
    destruct (App.newAudioContext w) as [u | e'].
    + rewrite E3. cbn. repeat split. discriminate.
    + cbn. repeat split. discriminate.
Qed.

Lemma failed_generation_installs_nothing_witness :
  let s' := App.handleGenerate empty_answer with_earlier_buffer in
  App.history s' = [earlier_item] /\
  App.currentAudioBuffer s' = None.
Proof.
  destruct (failed_generation_installs_nothing
              empty_answer with_earlier_buffer App.PcmDecodeFails)
    as (H1 & H2 & _).
  - reflexivity.
  - exists ""%string, (mkUint8Array [] 0 0), NotSupportedError.
    repeat split.
  - split; [exact H1 | exact H2].
Defined.

(** ** The frames the encoder leaves out

    The loop of [audioBufferToWav] counts frames with [pos], which the
    header writers have left at 44: the frames 0 to 43 of the buffer are
    not read, and the last 44 frame slots of the data chunk keep the
    zeros of the fresh [ArrayBuffer]. *)

Lemma short_buffer_data (b : AudioBuffer) :
  (length b <= 44)%nat ->
  wav_data b = repeat 0 (2 * numberOfChannels b * length b).
Proof.
  intro H. unfold wav_data.
  replace (length b - 44)%nat with 0%nat by lia.
  rewrite Nat.min_r by exact H. reflexivity.
Qed.

(** Scenario B of section 8 expects the data bytes FF 7F 00 80 00 00. *)
Lemma scenario_B_data :
  exists out,
    audioBufferToWav scenario_B = Ok out /\
    skipn 44 out = [0; 0; 0; 0; 0; 0].
Proof.
  eexists. split; [apply audioBufferToWav_eq|]. reflexivity.
Qed.

(** ** Further scenarios of section 8 *)

(** Scenario A: 48000 bytes of mono PCM at 24000 Hz decode to 24000
    frames, one second. *)
Lemma scenario_A (host_supports : nat -> nat -> Z -> bool)
  (data : Uint8Array) :
  wf_view data -> (byteOffset data mod 2 = 0)%nat ->
  byteLength data = (48 * 1000)%nat ->
  host_supports 1%nat (24 * 1000)%nat 24000 = true ->
  exists b,
    decodeAudioData host_supports data 24000 1 = Ok b /\
    length b = (24 * 1000)%nat /\
    AudioBuffer_duration b == 1.
Proof.
  intros Hw He Hl Hh.
  pose proof (decodeAudioData_eq host_supports data 24000 1 Hw He) as D.
  cbv zeta in D. rewrite Hl in D.
  change (48 * 1000 / 2 / 1)%nat with (24 * 1000)%nat in D.
  rewrite Hh in D.
  change ((1 =? 0)%nat || (24 * 1000 =? 0)%nat || (24000 <=? 0) || negb true)
    with false in D.
  eexists. split; [exact D|]. split; reflexivity.
Qed.

(** ** Remarks on the player and on [handleGenerate] *)

(** Any failure of [handleGenerate], at whatever step, leaves the buffer
    null and the history as it was: the encoder, the only step after the
    buffer is installed, does not fail. *)
Lemma failure_installs_nothing (w : App.world) (s : App.t) :
  App.trim_is_empty (App.text s) = false ->
  App.error (App.handleGenerate w s) <> None ->
  App.history (App.handleGenerate w s) = App.history s /\
  App.currentAudioBuffer (App.handleGenerate w s) = None.
Proof.
  intros Ht. unfold App.handleGenerate. rewrite Ht.
  cbn [App.text App.selectedVoice].
  destruct (App.generateSpeech w (App.text s) (App.selectedVoice s))
    as [base64Audio | e]; [|cbn; auto].
  destruct (App.decodeBase64 w base64Audio) as [audioBytes | e];
    [|cbn; auto].
  destruct (App.newAudioContext w) as [ctx | e]; [|cbn; auto].
  destruct (decodeAudioData (App.host_supports w) audioBytes 24000 1)
    as [audioBuffer | e]; [|cbn; auto].
  rewrite audioBufferToWav_eq. cbn. intro H. congruence.
Qed.

(** The [onended] handler reads the [isPlaying] of the render in which
    [playAudio] was called.  After a restart issued while playing it
    reads [true], and the [ended] event that a later pause causes resets
    the cursor the pause had just stored. *)
Lemma pause_taken_for_completion :
  let playing := Player.playAudio false (Player.mounted false 2 1 0) in
  let paused :=
    Player.pauseAudio (Player.advance (1 # 2) (Player.restart playing)) in
  Player.pausedTime paused == 1 # 2 /\
  Player.pausedTime (Player.onended true paused) = 0%Q.
Proof. split; reflexivity. Qed.

(** * Further properties of the source *)

(** ** The encoder: totality, size and header *)

Lemma le_bytes_range (n : nat) (v : Z) :
  Forall (fun b => 0 <= b < 256) (DataView.le_bytes n v).
Proof.
  revert v. induction n as [|n IH]; intro v; cbn [DataView.le_bytes].
  - constructor.
  - constructor; [apply Z.mod_pos_bound; lia | apply IH].
Qed.

Lemma flat_map_Forall {A B : Type} (P : B -> Prop) (f : A -> list B)
  (l : list A) :
  (forall a, Forall P (f a)) -> Forall P (flat_map f l).
Proof.
  intro H. induction l as [|a l IH]; cbn [flat_map].
  - constructor.
  - apply Forall_app. split; [apply H | exact IH].
Qed.

Lemma wav_data_length (b : AudioBuffer) :
  Datatypes.length (wav_data b) = (2 * numberOfChannels b * length b)%nat.
Proof.
  unfold wav_data. rewrite length_app, repeat_length.
  rewrite (flat_map_seq_length (frame_bytes b) (2 * numberOfChannels b))
    by (intro; apply frame_bytes_length).
  lia.
Qed.

(** [audioBufferToWav] raises nothing on any buffer; it returns
    [44 + 2 * channels * frames] bytes, each of them in [0, 256). *)
Theorem audioBufferToWav_total (b : AudioBuffer) :
  exists out,
    audioBufferToWav b = Ok out /\
    Datatypes.length out = (44 + 2 * numberOfChannels b * length b)%nat /\
    Forall (fun byte => 0 <= byte < 256) out.
Proof.
  exists (wav_header b ++ wav_data b).
  split; [apply audioBufferToWav_eq|]. split.
  - rewrite length_app, wav_header_length, wav_data_length. reflexivity.
  - apply Forall_app. split.
    + unfold wav_header. cbv zeta.
      repeat (apply Forall_app; split; [apply le_bytes_range|]).
      apply le_bytes_range.
    + unfold wav_data. apply Forall_app. split.
      * apply flat_map_Forall. intro p. unfold frame_bytes.
        apply flat_map_Forall. intro i. apply le_bytes_range.
      * apply Forall_forall. intros x Hx. apply repeat_spec in Hx. lia.
Qed.

Lemma header_riff_size (b : AudioBuffer) (rest : list Z) :
  DataView.getUint32 (wav_header b ++ rest) 4
  = JS.ToUint32
      (Z.of_nat (length b * numberOfChannels b * 2 + 44) - 8).
Proof. header_field. Qed.

Lemma header_fmt_size (b : AudioBuffer) (rest : list Z) :
  DataView.getUint32 (wav_header b ++ rest) 16 = JS.ToUint32 16.
Proof. header_field. Qed.

Lemma header_byte_rate (b : AudioBuffer) (rest : list Z) :
  DataView.getUint32 (wav_header b ++ rest) 28
  = JS.ToUint32 (sampleRate b * 2 * Z.of_nat (numberOfChannels b)).
Proof. header_field. Qed.

Lemma header_block_align (b : AudioBuffer) (rest : list Z) :
  DataView.getUint16 (wav_header b ++ rest) 32
  = JS.ToUint16 (Z.of_nat (numberOfChannels b) * 2).
Proof. header_field. Qed.

(** The header of the file: the four markers in ASCII, PCM format 1 at
    16 bits, the channel count, the sample rate, the byte rate
    [sampleRate * 2 * channels], the block size [2 * channels], and the
    two sizes, which agree with the length of the file: the RIFF size is
    the length less 8 and the data size the length less 44. *)
Theorem wav_header_fields (b : AudioBuffer) :
  header_holds b ->
  exists out,
    audioBufferToWav b = Ok out /\
    firstn 4 out = [82; 73; 70; 70] /\
    DataView.getUint32 out 4 = Z.of_nat (Datatypes.length out) - 8 /\
    firstn 8 (skipn 8 out) = [87; 65; 86; 69; 102; 109; 116; 32] /\
    DataView.getUint32 out 16 = 16 /\
    DataView.getUint16 out 20 = 1 /\
    DataView.getUint16 out 22 = Z.of_nat (numberOfChannels b) /\
    DataView.getUint32 out 24 = sampleRate b /\
    DataView.getUint32 out 28
    = sampleRate b * 2 * Z.of_nat (numberOfChannels b) /\
    DataView.getUint16 out 32 = 2 * Z.of_nat (numberOfChannels b) /\
    DataView.getUint16 out 34 = 16 /\
    firstn 4 (skipn 36 out) = [100; 97; 116; 97] /\
    DataView.getUint32 out 40 = Z.of_nat (Datatypes.length out) - 44.
Proof.
  intros (H1 & H2 & H3 & H4).
  exists (wav_header b ++ wav_data b).
  split; [apply audioBufferToWav_eq|].
  rewrite header_riff_size, header_fmt_size, header_format,
    header_channels, header_rate, header_byte_rate, header_block_align,
    header_bits, header_data_size.
  rewrite length_app, wav_header_length, wav_data_length.
  unfold JS.ToUint32, JS.ToUint16.
  repeat split; try reflexivity; try (rewrite Z.mod_small; nia).
Qed.

Lemma scenario_B_holds : header_holds scenario_B.
Proof. unfold header_holds; simpl. lia. Qed.

Lemma wav_header_fields_witness :
  exists out,
    audioBufferToWav scenario_B = Ok out /\
    DataView.getUint32 out 4 = 42 /\
    DataView.getUint32 out 24 = 24000 /\
    DataView.getUint32 out 40 = 6.
Proof.
  destruct (wav_header_fields scenario_B scenario_B_holds)
    as (out & H & _ & H4 & _ & _ & _ & _ & H24 & _ & _ & _ & _ & H40).
  assert (L : Datatypes.length out = 50%nat).
  { rewrite audioBufferToWav_eq in H. injection H as <-. reflexivity. }
  rewrite L in H4, H40.
  exists out. repeat split; assumption.
Defined.

(** ** The quantizer *)

Lemma trunc_mono (p q : Q) : (p <= q)%Q -> JS.trunc p <= JS.trunc q.
Proof.
  intro H.
  destruct (Qlt_le_dec p 0) as [Hp | Hp];
    destruct (Qlt_le_dec q 0) as [Hq | Hq].
  - rewrite (trunc_nonpos p), (trunc_nonpos q) by lra.
    apply Qceiling_resp_le. exact H.
  - assert (A : JS.trunc p <= 0).
    { destruct (trunc_upper p) as [U1 U2]; [lra|].
      assert (L : (inject_Z (JS.trunc p) < inject_Z 1)%Q)
        by (change (inject_Z 1) with 1%Q; lra).
      apply inject_Z_lt_inv in L. lia. }
    assert (B : 0 <= JS.trunc q).
    { destruct (trunc_lower q Hq) as [L1 L2].
      assert (L : (inject_Z (-1) < inject_Z (JS.trunc q))%Q)
        by (change (inject_Z (-1)) with (-1)%Q; lra).
      apply inject_Z_lt_inv in L. lia. }
    lia.
  - lra.
  - rewrite (trunc_nonneg p), (trunc_nonneg q) by lra.
    apply Qfloor_resp_le. exact H.
Qed.

Lemma trunc_integer (q : Q) (z : Z) : q == inject_Z z -> JS.trunc q = z.
Proof.
  intro H. destruct (Qlt_le_dec q 0) as [Hq | Hq].
  - rewrite trunc_nonpos by lra. rewrite (Qceiling_comp _ _ H).
    apply Qceiling_Z.
  - rewrite trunc_nonneg by exact Hq. rewrite (Qfloor_comp _ _ H).
    apply Qfloor_Z.
Qed.

Lemma clamp_mono (x y : Q) :
  (x <= y)%Q ->
  (JS.Math_max (-1) (JS.Math_min 1 x) <= JS.Math_max (-1) (JS.Math_min 1 y))%Q.
Proof.
  intro H.
  destruct (Qlt_le_dec x (-1)) as [X1 | X1];
    [rewrite (clamp_low x X1)
    | destruct (Qlt_le_dec 1 x) as [X2 | X2];
      [rewrite (clamp_high x X2) | rewrite (clamp_id x (conj X1 X2))]];
    (destruct (Qlt_le_dec y (-1)) as [Y1 | Y1];
     [rewrite (clamp_low y Y1)
     | destruct (Qlt_le_dec 1 y) as [Y2 | Y2];
       [rewrite (clamp_high y Y2) | rewrite (clamp_id y (conj Y1 Y2))]]);
    lra.
Qed.

(** The quantizer keeps the order of samples: a larger sample never
    gets a smaller 16-bit value, across the change of factor at -0.5 as
    well. *)
Theorem quantize_monotone (x y : Q) :
  (x <= y)%Q -> quantize x <= quantize y.
Proof.
  intro H.
  destruct (quantize_rule x) as [Ex _]. destruct (quantize_rule y) as [Ey _].
  cbv zeta in Ex, Ey. rewrite Ex, Ey.
  pose proof (clamp_mono x y H) as Hc.
  pose proof (clamp_range x) as Rx. pose proof (clamp_range y) as Ry.
  set (cx := JS.Math_max (-1) (JS.Math_min 1 x)) in *.
  set (cy := JS.Math_max (-1) (JS.Math_min 1 y)) in *.
  apply trunc_mono.
  destruct (JS.Qlt_bool cx (- (1 # 2))) eqn:Lx;
    destruct (JS.Qlt_bool cy (- (1 # 2))) eqn:Ly;
    try apply Qlt_bool_true in Lx; try apply Qlt_bool_false in Lx;
    try apply Qlt_bool_true in Ly; try apply Qlt_bool_false in Ly;
    lra.
Qed.

Lemma quantize_monotone_witness : quantize (- (1 # 2)) <= quantize (- (1 # 4)).
Proof. apply quantize_monotone. discriminate. Defined.

(** The quantizer saturates and never wraps: every result is a signed
    16-bit integer, a sample of 1.0 or more gives 32767, a sample of
    -1.0 or less gives -32768, and 0 gives 0. *)
Theorem quantize_saturates (x : Q) :
  - 32768 <= quantize x <= 32767 /\
  ((1 <= x)%Q -> quantize x = 32767) /\
  ((x <= -1)%Q -> quantize x = - 32768) /\
  (x == 0 -> quantize x = 0).
Proof.
  destruct (quantize_rule x) as [E R]. cbv zeta in E.
  split; [exact R|].
  set (c := JS.Math_max (-1) (JS.Math_min 1 x)) in *.
  split; [|split]; intro H; rewrite E.
  - assert (Hc : c == 1).
    { destruct (Qlt_le_dec 1 x) as [G | G].
      - apply clamp_high. exact G.
      - subst c. rewrite clamp_id by lra. lra. }
    replace (JS.Qlt_bool c (- (1 # 2))) with false
      by (symmetry; apply Qlt_bool_false; lra).
    apply trunc_integer. rewrite Hc. reflexivity.
  - assert (Hc : c == -1).
    { destruct (Qlt_le_dec x (-1)) as [G | G].
      - apply clamp_low. exact G.
      - subst c. rewrite clamp_id by lra. lra. }
    replace (JS.Qlt_bool c (- (1 # 2))) with true
      by (symmetry; apply Qlt_bool_true; lra).
    apply trunc_integer. rewrite Hc. reflexivity.
  - assert (Hc : c == 0).
    { subst c. rewrite clamp_id by lra. exact H. }
    replace (JS.Qlt_bool c (- (1 # 2))) with false
      by (symmetry; apply Qlt_bool_false; lra).
    apply trunc_integer. rewrite Hc. reflexivity.
Qed.

(** Encoding what the PCM decoder produced does not give the PCM value
    back: the decoder divides by 32768 and the encoder multiplies by
    32767 from -0.5 on, so every positive value comes back one step
    lower and every negative value from -16384 on one step higher; only
    0 and the values below -16384 survive. *)
Theorem requantize_decoded (v : Z) :
  - 32768 <= v <= 32767 ->
  quantize (int16_to_float v)
  = if v <? - 16384 then v
    else if v <? 0 then v + 1
    else if v =? 0 then 0
    else v - 1.
Proof.
  intro Hv.
  destruct (quantize_rule (int16_to_float v)) as [E _]. cbv zeta in E.
  rewrite E. clear E.
  assert (Hx : (-1 <= int16_to_float v <= 1)%Q).
  { rewrite int16_to_float_eq.
    assert (A : (inject_Z (-32768) <= inject_Z v)%Q)
      by (rewrite <- Zle_Qle; lia).
    assert (B : (inject_Z v <= inject_Z 32767)%Q)
      by (rewrite <- Zle_Qle; lia).
    change (inject_Z (-32768)) with (-32768)%Q in A.
    change (inject_Z 32767) with 32767%Q in B. lra. }
  pose proof (clamp_id _ Hx) as Hc.
  set (c := JS.Math_max (-1) (JS.Math_min 1 (int16_to_float v))) in *.
  rewrite int16_to_float_eq in Hc.
  destruct (v <? - 16384) eqn:C1.
  - apply Z.ltb_lt in C1.
    assert (A : (inject_Z v < inject_Z (-16384))%Q)
      by (rewrite <- Zlt_Qlt; lia).
    change (inject_Z (-16384)) with (-16384)%Q in A.
    replace (JS.Qlt_bool c (- (1 # 2))) with true
      by (symmetry; apply Qlt_bool_true; lra).
    apply trunc_integer. rewrite Hc. field.
  - apply Z.ltb_ge in C1.
    assert (A : (inject_Z (-16384) <= inject_Z v)%Q)
      by (rewrite <- Zle_Qle; lia).
    change (inject_Z (-16384)) with (-16384)%Q in A.
    replace (JS.Qlt_bool c (- (1 # 2))) with false
      by (symmetry; apply Qlt_bool_false; lra).
    destruct (v <? 0) eqn:C2.
    + apply Z.ltb_lt in C2.
      assert (B : (inject_Z v < inject_Z 0)%Q) by (rewrite <- Zlt_Qlt; lia).
      change (inject_Z 0) with 0%Q in B.
      destruct (trunc_upper (c * 32767)%Q) as [U1 U2]; [lra|].
      set (t := JS.trunc (c * 32767)%Q) in *.
      assert (T1 : (inject_Z v < inject_Z t)%Q) by lra.
      assert (T2 : (inject_Z t < inject_Z (v + 2))%Q).
      { rewrite inject_Z_plus. change (inject_Z 2) with 2%Q. lra. }
      apply inject_Z_lt_inv in T1. apply inject_Z_lt_inv in T2. lia.
    + apply Z.ltb_ge in C2.
      destruct (v =? 0) eqn:C3.
      * apply Z.eqb_eq in C3. subst v.
        apply trunc_integer. rewrite Hc. reflexivity.
      * apply Z.eqb_neq in C3.
        assert (B : (inject_Z 1 <= inject_Z v)%Q)
          by (rewrite <- Zle_Qle; lia).
        change (inject_Z 1) with 1%Q in B.
        assert (B' : (inject_Z v <= inject_Z 32767)%Q)
          by (rewrite <- Zle_Qle; lia).
        change (inject_Z 32767) with 32767%Q in B'.
        destruct (trunc_lower (c * 32767)%Q) as [L1 L2]; [lra|].
        set (t := JS.trunc (c * 32767)%Q) in *.
        assert (T1 : (inject_Z (v - 2) < inject_Z t)%Q).
        { unfold Z.sub. rewrite inject_Z_plus.
          change (inject_Z (- (2))) with (-2)%Q. lra. }
        assert (T2 : (inject_Z t < inject_Z v)%Q) by lra.
        apply inject_Z_lt_inv in T1. apply inject_Z_lt_inv in T2. lia.
Qed.

Lemma requantize_decoded_witness :
  quantize (int16_to_float 1) = 0 /\ quantize (int16_to_float (-1)) = 0.
Proof.
  split.
  - apply (requantize_decoded 1). lia.
  - apply (requantize_decoded (-1)). lia.
Defined.

(** ** The frames the encoder reads *)

(** The file depends on the buffer only through its shape, its sample
    rate and its frames from index 44 on: two buffers that differ in
    their first 44 frames only are encoded to the same bytes.  The last
    [min 44 frames] frame slots of the data chunk are zero. *)
Theorem first_frames_ignored (b b' : AudioBuffer) :
  numberOfChannels b' = numberOfChannels b ->
  length b' = length b ->
  sampleRate b' = sampleRate b ->
  (forall i p, (44 <= p)%nat ->
     nth p (getChannelData b' i) 0%Q = nth p (getChannelData b i) 0%Q) ->
  audioBufferToWav b' = audioBufferToWav b /\
  exists out,
    audioBufferToWav b = Ok out /\
    skipn (44 + 2 * numberOfChannels b * (length b - 44)) out
    = repeat 0 (2 * numberOfChannels b * Nat.min 44 (length b)).
Proof.
  intros Hc Hl Hr Hs. split.
  - rewrite !audioBufferToWav_eq. f_equal. f_equal.
    + unfold wav_header. rewrite Hc, Hl, Hr. reflexivity.
    + unfold wav_data. rewrite Hc, Hl. f_equal.
      rewrite !flat_map_concat_map. f_equal.
      apply map_ext_in. intros p Hp. apply in_seq in Hp.
      unfold frame_bytes. rewrite Hc.
      rewrite !flat_map_concat_map. f_equal.
      apply map_ext. intro i. rewrite Hs by lia. reflexivity.
  - eexists. split; [apply audioBufferToWav_eq|].
    unfold wav_data. rewrite app_assoc.
    rewrite skipn_app.
    assert (L : Datatypes.length
                  (wav_header b
                   ++ flat_map (frame_bytes b) (seq 44 (length b - 44)))
                = (44 + 2 * numberOfChannels b * (length b - 44))%nat).
    { rewrite length_app, wav_header_length.
      rewrite (flat_map_seq_length (frame_bytes b) (2 * numberOfChannels b))
        by (intro; apply frame_bytes_length).
      reflexivity. }
    rewrite <- L, skipn_all, Nat.sub_diag. reflexivity.
Qed.

Lemma first_frames_ignored_witness :
  audioBufferToWav (mkAudioBuffer 1 3 24000 [[0; 0; 0]%Q])
  = audioBufferToWav scenario_B.
Proof.
  apply (first_frames_ignored scenario_B
           (mkAudioBuffer 1 3 24000 [[0; 0; 0]%Q])); try reflexivity.
  intros i p Hp. unfold getChannelData. cbn [channelData].
  destruct i as [|i].
  - change (nth p [0; 0; 0]%Q 0%Q = nth p [1; -1; 0]%Q 0%Q).
    rewrite !nth_overflow by (simpl; lia). reflexivity.
  - rewrite !(nth_overflow _ (n := S i)) by (simpl; lia). reflexivity.
Defined.

(** ** The decoder's result *)

Lemma ToInt16_range (z : Z) : - 32768 <= JS.ToInt16 z <= 32767.
Proof.
  unfold JS.ToInt16.
  pose proof (Z.mod_pos_bound (z + 2 ^ 15) (2 ^ 16) ltac:(lia)). lia.
Qed.

(** What a successful call returned, whatever the window. *)
Lemma decodeAudioData_inv (host_supports : nat -> nat -> Z -> bool)
  (data : Uint8Array) (rate : Z) (ch : nat) (b : AudioBuffer) :
  decodeAudioData host_supports data rate ch = Ok b ->
  let frames := (byteLength data / 2 / ch)%nat in
  (byteOffset data mod 2 = 0)%nat /\
  (1 <= ch)%nat /\ (1 <= frames)%nat /\ 0 < rate /\
  host_supports ch frames rate = true /\
  b = mkAudioBuffer ch frames rate
        (repeat (map int16_to_float (firstn frames (samples_of data))) ch).
Proof.
  intros H frames. unfold decodeAudioData, Int16Array in H.
  destruct (byteOffset data mod 2 =? 0)%nat eqn:E1; [|discriminate H].
  cbn [negb] in H.
  destruct (Datatypes.length (buffer data)
            <? byteOffset data + 2 * (byteLength data / 2))%nat eqn:E2;
    [discriminate H|].
  cbn [bind] in H. fold (samples_of data) in H.
  rewrite samples_of_length in H. fold frames in H.
  unfold createBuffer in H.
  destruct (ch =? 0)%nat eqn:C1; [discriminate H|].
  destruct (frames =? 0)%nat eqn:C2; [discriminate H|].
  destruct (rate <=? 0) eqn:C3; [discriminate H|].
  destruct (host_supports ch frames rate) eqn:C4; [|discriminate H].
  cbn [orb negb bind] in H.
  apply Nat.eqb_eq in E1. apply Nat.eqb_neq in C1. apply Nat.eqb_neq in C2.
  apply Z.leb_gt in C3.
  repeat split; try lia.
  rewrite fill_buffer_eq in H.
  - injection H as <-. reflexivity.
  - rewrite samples_of_length. subst frames.
    apply Nat.Div0.div_le_upper_bound.
    destruct ch; [lia|]. nia.
Qed.

(** Every buffer the decoder returns is a valid Sample Buffer with at
    least one frame: all channels have the buffer's length, and every
    sample lies between -1 and 32767/32768. *)
Theorem decoded_buffer_valid (host_supports : nat -> nat -> Z -> bool)
  (data : Uint8Array) (rate : Z) (ch : nat) (b : AudioBuffer) :
  decodeAudioData host_supports data rate ch = Ok b ->
  wf_buffer b /\
  (1 <= numberOfChannels b)%nat /\ (1 <= length b)%nat /\
  Forall (Forall (fun x => -1 <= x <= 32767 # 32768)%Q) (channelData b).
Proof.
  intro H. apply decodeAudioData_inv in H. cbv zeta in H.
  destruct H as (_ & Hc & Hf & _ & _ & ->).
  set (frames := (byteLength data / 2 / ch)%nat) in *.
  cbn [numberOfChannels length channelData].
  assert (Hle : (frames <= Datatypes.length (samples_of data))%nat).
  { rewrite samples_of_length. subst frames.
    apply Nat.Div0.div_le_upper_bound. destruct ch; [lia|]. nia. }
  split; [split|split; [exact Hc|split; [exact Hf|]]].
  - apply repeat_length.
  - apply Forall_forall. intros c Hin. apply repeat_spec in Hin. subst c.
    rewrite length_map, length_firstn. cbn [length]. lia.
  - apply Forall_forall. intros c Hin. apply repeat_spec in Hin. subst c.
    apply Forall_forall. intros x Hx. apply in_map_iff in Hx.
    destruct Hx as (v & <- & Hv).
    assert (R : - 32768 <= v <= 32767).
    { assert (Hv' : In v (samples_of data)).
      { rewrite <- (firstn_skipn frames). apply in_or_app. left. exact Hv. }
      clear Hv. rename Hv' into Hv. unfold samples_of in Hv.
      apply in_map_iff in Hv. destruct Hv as (k & <- & _).
      apply ToInt16_range. }
    rewrite int16_to_float_eq.
    assert (A : (inject_Z (-32768) <= inject_Z v)%Q)
      by (rewrite <- Zle_Qle; lia).
    assert (B : (inject_Z v <= inject_Z 32767)%Q)
      by (rewrite <- Zle_Qle; lia).
    change (inject_Z (-32768)) with (-32768)%Q in A.
    change (inject_Z 32767) with 32767%Q in B. lra.
Qed.

Lemma decoded_buffer_valid_witness :
  exists b,
    decodeAudioData any_host stereo_bytes 24000 2 = Ok b /\ wf_buffer b.
Proof.
  eexists. split; [reflexivity|].
  eapply (decoded_buffer_valid any_host stereo_bytes 24000 2). reflexivity.
Defined.

(** ** From the service's answer to the buffer *)

(** The bytes [decodeBase64] returns are a window at offset 0 over the
    whole of a fresh buffer, so the PCM decoding of [handleGenerate]
    (24000 Hz, one channel) fails in one way only: with the host's
    [NotSupportedError], when the audio has fewer than two bytes or the
    host does not allocate the buffer.  Otherwise it returns
    [byteLength / 2] frames, rounded down. *)
Theorem pcm_step_outcome (w : App.world) (base64 : string) (chars : list Z) :
  App.atob w base64 = Ok chars ->
  let n := Datatypes.length chars in
  exists data,
    App.decodeBase64 w base64 = Ok data /\
    byteOffset data = 0%nat /\ byteLength data = n /\ wf_view data /\
    Forall (fun byte => 0 <= byte < 256) (buffer data) /\
    decodeAudioData (App.host_supports w) data 24000 1
    = if (n / 2 =? 0)%nat || negb (App.host_supports w 1%nat (n / 2)%nat 24000)
      then Err NotSupportedError
      else Ok (mkAudioBuffer 1 (n / 2) 24000
                 [map int16_to_float (samples_of data)]).
Proof.
  intros H n. unfold App.decodeBase64. rewrite H. cbn [bind].
  set (data := mkUint8Array (map JS.ToUint8 chars) 0
                 (Datatypes.length (map JS.ToUint8 chars))).
  assert (Hl : byteLength data = n)
    by (subst data n; cbn [byteLength]; apply length_map).
  assert (Hw : wf_view data)
    by (unfold wf_view; subst data; cbn [byteOffset byteLength buffer]; lia).
  exists data. split; [reflexivity|]. split; [reflexivity|].
  split; [exact Hl|]. split; [exact Hw|]. split.
  - subst data. cbn [buffer]. apply Forall_forall. intros x Hx.
    apply in_map_iff in Hx. destruct Hx as (c & <- & _).
    unfold JS.ToUint8. apply Z.mod_pos_bound. lia.
  - rewrite (decodeAudioData_eq (App.host_supports w) data 24000 1 Hw eq_refl).
    rewrite Hl, Nat.div_1_r.
    change (1 =? 0)%nat with false. change (24000 <=? 0) with false.
    cbn [orb]. rewrite orb_false_r.
    destruct ((n / 2 =? 0)%nat
              || negb (App.host_supports w 1%nat (n / 2)%nat 24000));
      [reflexivity|].
    cbn [repeat]. rewrite firstn_all2; [reflexivity|].
    rewrite samples_of_length, Hl. lia.
Qed.

Lemma pcm_step_outcome_witness :
  exists data,
    App.decodeBase64 empty_answer ""%string = Ok data /\
    decodeAudioData any_host data 24000 1 = Err NotSupportedError.
Proof.
  destruct (pcm_step_outcome empty_answer ""%string [] eq_refl)
    as (data & H1 & _ & _ & _ & _ & H2).
  exists data. split; [exact H1 | exact H2].
Defined.

(** ** A generation that succeeds *)

Lemma substring_all (s : string) (n : nat) :
  (String.length s <= n)%nat -> substring 0 n s = s.
Proof.
  revert n. induction s as [|c s IH]; intros n H.
  - destruct n; reflexivity.
  - destruct n as [|n]; [simpl in H; lia|].
    cbn [substring]. f_equal. apply IH. simpl in H. lia.
Qed.

Lemma substring_length (s : string) (n : nat) :
  (n <= String.length s)%nat -> String.length (substring 0 n s) = n.
Proof.
  revert n. induction s as [|c s IH]; intros n H.
  - simpl in H. replace n with 0%nat by lia. reflexivity.
  - destruct n as [|n]; [reflexivity|].
    cbn [substring String.length]. f_equal. apply IH. simpl in H. lia.
Qed.

Lemma append_length (s1 s2 : string) :
  String.length (s1 ++ s2) = (String.length s1 + String.length s2)%nat.
Proof.
  induction s1 as [|c s1 IH]; cbn [append String.length].
  - reflexivity.
  - now rewrite IH.
Qed.

Lemma substring_append_left (s1 s2 : string) :
  substring 0 (String.length s1) (s1 ++ s2) = s1.
Proof.
  induction s1 as [|c s1 IH]; cbn [append String.length substring].
  - destruct s2; reflexivity.
  - f_equal. exact IH.
Qed.

Lemma substring_append_right (s1 s2 : string) :
  substring (String.length s1) (String.length s2) (s1 ++ s2) = s2.
Proof.
  induction s1 as [|c s1 IH]; cbn [append String.length substring].
  - apply substring_all. lia.
  - exact IH.
Qed.

(** When every step succeeds, [handleGenerate] installs the decoded
    buffer, clears the error and the loading flag, and puts exactly one
    entry in front of the history, the earlier entries unchanged: it
    carries the settings in force, and its blob is a WAV file of
    [44 + 2 * (byteLength / 2)] bytes. *)
Theorem generation_installs (w : App.world) (s : App.t)
  (data : Uint8Array) (b : AudioBuffer) :
  generation_succeeds w s data b ->
  let s' := App.handleGenerate w s in
  App.currentAudioBuffer s' = Some b /\
  App.error s' = None /\ App.isLoading s' = false /\
  App.text s' = App.text s /\
  exists item,
    App.history s' = item :: App.history s /\
    App.id item = App.randomUUID w /\
    App.timestamp item = App.Date_now w /\
    App.voice item = App.selectedVoice s /\
    App.item_speed item = App.speed s /\
    App.item_pitch item = App.pitch s /\
    App.duration item = AudioBuffer_duration b /\
    Datatypes.length (App.audioBlob item)
    = (44 + 2 * (byteLength data / 2))%nat.
Proof.
  intros (Ht & b64 & E1 & E2 & E3 & E4) s'. subst s'.
  unfold App.handleGenerate. rewrite Ht.
  cbn [App.text App.selectedVoice]. rewrite E1, E2, E3, E4.
  rewrite audioBufferToWav_eq.
  cbn [App.set_buffer App.currentAudioBuffer App.error App.isLoading
       App.text App.history App.speed App.pitch App.selectedVoice].
  repeat (split; [reflexivity|]).
  eexists. split; [reflexivity|].
  cbn [App.id App.timestamp App.voice App.item_speed App.item_pitch
       App.duration App.audioBlob].
  repeat (split; [reflexivity|]).
  rewrite length_app, wav_header_length, wav_data_length.
  apply decodeAudioData_inv in E4. cbv zeta in E4.
  destruct E4 as (_ & _ & _ & _ & _ & ->).
  cbn [numberOfChannels length]. rewrite Nat.div_1_r. lia.
Qed.

(** The label of the new entry is the text itself when it has at most
    60 characters; a longer text is cut to its first 60 characters
    followed by three dots, 63 characters in all. *)
Theorem generation_label (w : App.world) (s : App.t)
  (data : Uint8Array) (b : AudioBuffer) :
  generation_succeeds w s data b ->
  exists item rest,
    App.history (App.handleGenerate w s) = item :: rest /\
    ((String.length (App.text s) <= 60)%nat ->
     App.item_text item = App.text s) /\
    ((60 < String.length (App.text s))%nat ->
     String.length (App.item_text item) = 63%nat /\
     substring 0 60 (App.item_text item) = substring 0 60 (App.text s) /\
     substring 60 3 (App.item_text item) = "..."%string).
Proof.
  intros (Ht & b64 & E1 & E2 & E3 & E4).
  unfold App.handleGenerate. rewrite Ht.
  cbn [App.text App.selectedVoice]. rewrite E1, E2, E3, E4.
  rewrite audioBufferToWav_eq.
  cbn [App.set_buffer App.history App.text].
  eexists. eexists. split; [reflexivity|].
  cbn [App.item_text].
  set (t := App.text s).
  split; intro H.
  - replace (60 <? String.length t)%nat with false
      by (symmetry; apply Nat.ltb_ge; exact H).
    rewrite substring_all by exact H.
    induction t as [|c t IH]; [reflexivity|].
    cbn [append]. f_equal. apply IH. simpl in H. lia.
  - replace (60 <? String.length t)%nat with true
      by (symmetry; apply Nat.ltb_lt; exact H).
    assert (L : String.length (substring 0 60 t) = 60%nat)
      by (apply substring_length; lia).
    split; [|split].
    + rewrite append_length, L. reflexivity.
    + rewrite <- L at 1. apply substring_append_left.
    + rewrite <- L at 1.
      apply (substring_append_right (substring 0 60 t) "..."%string).
Qed.

Lemma two_samples_succeed :
  generation_succeeds two_samples with_earlier_buffer
    (mkUint8Array [1; 0; 2; 0] 0 4)
    (mkAudioBuffer 1 2 24000 [[1 # 32768; 2 # 32768]%Q]).
Proof.
  split; [reflexivity|].
  exists "AQACAA=="%string. repeat split; reflexivity.
Qed.

Lemma generation_installs_witness :
  exists item,
    App.history (App.handleGenerate two_samples with_earlier_buffer)
    = [item; earlier_item] /\
    Datatypes.length (App.audioBlob item) = 48%nat.
Proof.
  destruct (generation_installs _ _ _ _ two_samples_succeed)
    as (_ & _ & _ & _ & item & H & _ & _ & _ & _ & _ & _ & L).
  exists item. split; [exact H | exact L].
Defined.

Lemma generation_label_witness :
  exists item rest,
    App.history (App.handleGenerate two_samples with_earlier_buffer)
    = item :: rest /\
    App.item_text item = "hello again"%string.
Proof.
  destruct (generation_label _ _ _ _ two_samples_succeed)
    as (item & rest & H & L & _).
  exists item, rest. split; [exact H|]. apply L. simpl. lia.
Defined.

(** The state after a generation that succeeds. *)
Lemma handleGenerate_ok (w : App.world) (s : App.t)
  (data : Uint8Array) (b : AudioBuffer) :
  generation_succeeds w s data b ->
  App.handleGenerate w s
  = App.mk (App.text s) (App.selectedVoice s) (App.speed s) (App.pitch s)
      false None (Some b) (new_item w s b :: App.history s).
Proof.
  intros (Ht & b64 & E1 & E2 & E3 & E4).
  unfold App.handleGenerate. rewrite Ht.
  cbn [App.text App.selectedVoice]. rewrite E1, E2, E3, E4.
  rewrite audioBufferToWav_eq. reflexivity.
Qed.

(** ** Deleting and reloading history entries *)

Lemma filter_id {A : Type} (f : A -> bool) (l : list A) :
  (forall x, In x l -> f x = true) -> filter f l = l.
Proof.
  induction l as [|a l IH]; intro H; cbn [filter].
  - reflexivity.
  - rewrite (H a (or_introl eq_refl)). f_equal.
    apply IH. intros x Hx. apply H. right. exact Hx.
Qed.



(** Deleting the entry a generation has just added gives back the
    history the generation started from, when no earlier entry has the
    new id; the buffer the generation installed stays. *)
Theorem generate_then_delete (w : App.world) (s : App.t)
  (data : Uint8Array) (b : AudioBuffer) :
  generation_succeeds w s data b ->
  (forall item, In item (App.history s) ->
                App.id item <> App.randomUUID w) ->
  let s' := deleteHistoryItem (App.randomUUID w) (App.handleGenerate w s) in
  App.history s' = App.history s /\
  App.currentAudioBuffer s' = Some b.
Proof.
  intros Hg Hfresh s'. subst s'.
  rewrite (handleGenerate_ok w s data b Hg).
  unfold deleteHistoryItem. cbn [App.history App.currentAudioBuffer filter].
  split; [|reflexivity].
  unfold new_item at 1. cbn [App.id]. rewrite String.eqb_refl. cbn [negb].
  apply filter_id. intros x Hx.
  rewrite negb_true_iff, String.eqb_neq. apply Hfresh. exact Hx.
Qed.

Lemma generate_then_delete_witness :
  App.history
    (deleteHistoryItem (App.randomUUID two_samples)
       (App.handleGenerate two_samples with_earlier_buffer))
  = [earlier_item].
Proof.
  apply (generate_then_delete _ _ _ _ two_samples_succeed).
  intros item [<- | []]. discriminate.
Defined.

Lemma or_else_nonzero (x y : Q) : ~ x == 0 -> or_else x y = x.
Proof.
  intro H. unfold or_else. destruct (Qeq_bool x 0) eqn:E; [|reflexivity].
  apply Qeq_bool_eq in E. contradiction.
Qed.

(** Reloading the entry a generation has just added, when the browser
    decodes its blob: the player receives the decoded buffer; the voice
    and a non-zero speed and pitch are those of the generation; the
    history is untouched; but the text becomes the label of the entry,
    which is the text that was synthesized only if that had at most 60
    characters. *)
Theorem reload_generated (w : App.world) (s : App.t)
  (data : Uint8Array) (b b' : AudioBuffer)
  (nativeDecode : list Z -> result AudioBuffer) :
  generation_succeeds w s data b ->
  nativeDecode (wav_header b ++ wav_data b) = Ok b' ->
  let s1 := App.handleGenerate w s in
  let s2 := loadFromHistory (Ok tt) nativeDecode (new_item w s b) s1 in
  In (new_item w s b) (App.history s1) /\
  App.currentAudioBuffer s2 = Some b' /\
  App.selectedVoice s2 = App.selectedVoice s /\
  (~ App.speed s == 0 -> App.speed s2 = App.speed s) /\
  (~ App.pitch s == 0 -> App.pitch s2 = App.pitch s) /\
  App.history s2 = App.history s1 /\
  ((String.length (App.text s) <= 60)%nat -> App.text s2 = App.text s) /\
  ((60 < String.length (App.text s))%nat ->
   String.length (App.text s2) = 63%nat).
Proof.
  intros Hg Hd s1 s2. subst s1 s2.
  rewrite (handleGenerate_ok w s data b Hg).
  unfold loadFromHistory. cbn [new_item App.audioBlob]. rewrite Hd.
  cbn [App.history App.currentAudioBuffer App.selectedVoice App.speed
       App.pitch App.text App.item_text App.voice App.item_speed
       App.item_pitch].
  split; [left; reflexivity|]. split; [reflexivity|]. split; [reflexivity|].
  split; [apply or_else_nonzero|]. split; [apply or_else_nonzero|].
  split; [reflexivity|].
  unfold new_item. cbn [App.item_text].
  set (t := App.text s). split; intro H.
  - replace (60 <? String.length t)%nat with false
      by (symmetry; apply Nat.ltb_ge; exact H).
    rewrite substring_all by exact H.
    clear H. induction t as [|c t IH]; [reflexivity|].
    cbn [append]. f_equal. exact IH.
  - replace (60 <? String.length t)%nat with true
      by (symmetry; apply Nat.ltb_lt; exact H).
    rewrite append_length, substring_length by lia. reflexivity.
Qed.

Lemma reload_generated_witness :
  let s1 := App.handleGenerate two_samples with_earlier_buffer in
  let b := mkAudioBuffer 1 2 24000 [[1 # 32768; 2 # 32768]%Q] in
  App.text
    (loadFromHistory (Ok tt) wavDecode
       (new_item two_samples with_earlier_buffer b) s1)
  = "hello again"%string.
Proof.
  destruct (reload_generated two_samples with_earlier_buffer _ _
              (mkAudioBuffer 1 2 24000 [[0 # 32768; 0 # 32768]%Q]) wavDecode
              two_samples_succeed)
    as (_ & _ & _ & _ & _ & _ & H & _).
  - vm_compute. reflexivity.
  - apply H. simpl. lia.
Defined.

(** ** The player: what is displayed, and when a pause takes effect *)

Lemma shown_mounted (autoPlay : bool) (d r p : Q) :
  (0 <= d)%Q -> (0 <= r)%Q -> shown d (Player.mounted autoPlay d r p).
Proof.
  intros Hd Hr. split; [apply inv_mounted; assumption|].
  unfold Player.mounted, Player.load, Player.initial.
  destruct autoPlay; unfold Player.playAudio;
    cbn [Player.duration Player.currentTime Player.isPlaying
         Player.sourceNode Player.audioContext Player.audioBuffer_duration];
    (split; [reflexivity|]); (split; [lra|]); intro H.
  - split; discriminate.
  - discriminate H.
Qed.

Lemma shown_step (d : Q) (s : Player.t) (e : Player.event) :
  (0 <= d)%Q -> Player.event_ok e -> shown d s -> shown d (Player.step s e).
Proof.
  intros Hd He (Hi & Hdur & Hct & Hpl).
  split; [apply inv_step; assumption|].
  destruct Hi as (Hb & Hr & Hc & Ha).
  destruct e as [ | | | | | captured | dt | r]; cbn [Player.step].
  - (* Play *)
    unfold Player.playAudio.
    cbn [Player.duration Player.currentTime Player.isPlaying
         Player.sourceNode Player.audioContext].
    split; [exact Hdur|]. split; [exact Hct|].
    intros _. split; discriminate.
  - (* Pause *)
    unfold Player.pauseAudio.
    destruct (Player.sourceNode s) as [n|] eqn:En;
      [|split; [exact Hdur|]; split; [exact Hct|];
        intro H; destruct (Hpl H) as [H1 H2]; congruence].
    destruct (Player.audioContext s) as [now|] eqn:Ec;
      [|split; [exact Hdur|]; split; [exact Hct|];
        intro H; destruct (Hpl H) as [H1 H2]; congruence].
    cbn [Player.duration Player.currentTime Player.isPlaying
         Player.sourceNode Player.audioContext].
    split; [exact Hdur|]. split; [exact Hct|].
    intro H. discriminate H.
  - (* Stop *)
    unfold Player.stopAudio.
    cbn [Player.duration Player.currentTime Player.isPlaying
         Player.sourceNode Player.audioContext].
    split; [exact Hdur|]. split; [lra|].
    intro H. discriminate H.
  - (* Restart *)
    unfold Player.restart, Player.playAudio, Player.stopAudio.
    cbn [Player.duration Player.currentTime Player.isPlaying
         Player.sourceNode Player.audioContext Player.pausedTime].
    split; [exact Hdur|]. split; [lra|].
    intros _. split; discriminate.
  - (* Tick *)
    unfold Player.updateProgress.
    destruct (Player.isPlaying s) eqn:Ep;
      [|split; [exact Hdur|]; split; [exact Hct|];
        intro H; congruence].
    destruct (Player.audioContext s) as [now|] eqn:Ec;
      [|destruct (Hpl eq_refl) as [H1 H2]; congruence].
    set (bp := (Player.pausedTime s
                + (now - Player.startTime s) * Player.speed s)%Q).
    assert (Hbp : (0 <= bp)%Q).
    { subst bp.
      assert (Hel : (0 <= (now - Player.startTime s) * Player.speed s)%Q).
      { apply Qmult_le_0_compat; [|exact Hr].
        specialize (Ha now eq_refl). lra. }
      lra. }
    destruct (JS.Qlt_bool bp (Player.duration s)) eqn:L;
      cbn [Player.duration Player.currentTime Player.isPlaying
           Player.sourceNode Player.audioContext].
    + apply Qlt_bool_true in L.
      split; [exact Hdur|]. split.
      * unfold JS.Math_min.
        replace (JS.Qlt_bool (Player.duration s) bp) with false
          by (symmetry; apply Qlt_bool_false; lra).
        rewrite Hdur in L. lra.
      * intros _. destruct (Hpl eq_refl) as [H1 H2]. split; [exact H1|].
        discriminate.
    + split; [exact Hdur|]. split; [lra|]. intro H. discriminate H.
  - (* Ended *)
    unfold Player.onended. destruct captured;
      [|split; [exact Hdur|]; split; [exact Hct | exact Hpl]].
    cbn [Player.duration Player.currentTime Player.isPlaying
         Player.sourceNode Player.audioContext].
    split; [exact Hdur|]. split; [lra|]. intro H. discriminate H.
  - (* Advance *)
    unfold Player.advance.
    cbn [Player.duration Player.currentTime Player.isPlaying
         Player.sourceNode Player.audioContext].
    split; [exact Hdur|]. split; [exact Hct|].
    intro H. destruct (Hpl H) as [H1 H2]. split; [exact H1|].
    destruct (Player.audioContext s); [discriminate | congruence].
  - (* SetSpeed *)
    unfold Player.set_speed.
    cbn [Player.duration Player.currentTime Player.isPlaying
         Player.sourceNode Player.audioContext].
    split; [exact Hdur|]. split; [exact Hct | exact Hpl].
Qed.

Lemma shown_run (d : Q) (es : list Player.event) :
  (0 <= d)%Q -> Forall Player.event_ok es ->
  forall s, shown d s -> shown d (Player.run s es).
Proof.
  intros Hd Hes. induction Hes as [|e es He _ IH]; intros s Hs.
  - exact Hs.
  - cbn [Player.run fold_left]. apply IH. apply shown_step; assumption.
Qed.

(** In every state reached from the mounted player, the displayed time
    lies between 0 and the duration the component shows, which is the
    duration of the buffer: the progress bar never leaves its track. *)
Theorem displayed_time_within (autoPlay : bool) (d r p : Q)
  (es : list Player.event) :
  (0 <= d)%Q -> (1 # 2 <= r <= 2)%Q -> Forall Player.event_ok es ->
  let s := Player.run (Player.mounted autoPlay d r p) es in
  Player.duration s = d /\
  (0 <= Player.currentTime s <= Player.duration s)%Q.
Proof.
  intros Hd Hr Hes s.
  assert (I : shown d s).
  { apply shown_run; [exact Hd | exact Hes |].
    apply shown_mounted; [exact Hd | lra]. }
  destruct I as (_ & Hdur & Hct & _).
  split; [exact Hdur|]. rewrite Hdur. exact Hct.
Qed.

Lemma displayed_time_within_witness :
  let s := Player.run (Player.mounted true 1 1 0)
             [Player.Advance (3 # 10); Player.Tick; Player.Pause] in
  (0 <= Player.currentTime s <= Player.duration s)%Q.
Proof.
  apply (displayed_time_within true 1 1 0).
  - discriminate.
  - split; discriminate.
  - repeat constructor; discriminate.
Defined.

(** In every state reached from the mounted player, a playing session
    has a source and a context, so the guard of [pauseAudio] passes:
    the play/pause button always changes the state, and a pause always
    ends with the session not playing. *)
Theorem pause_takes_effect (autoPlay : bool) (d r p : Q)
  (es : list Player.event) :
  (0 <= d)%Q -> (1 # 2 <= r <= 2)%Q -> Forall Player.event_ok es ->
  let s := Player.run (Player.mounted autoPlay d r p) es in
  Player.isPlaying (Player.pauseAudio s) = false /\
  Player.isPlaying (toggle s) = negb (Player.isPlaying s).
Proof.
  intros Hd Hr Hes s.
  assert (I : shown d s).
  { apply shown_run; [exact Hd | exact Hes |].
    apply shown_mounted; [exact Hd | lra]. }
  destruct I as (_ & _ & _ & Hpl).
  assert (P : Player.isPlaying (Player.pauseAudio s) = false).
  { unfold Player.pauseAudio.
    destruct (Player.isPlaying s) eqn:Ep.
    - destruct (Hpl eq_refl) as [H1 H2].
      destruct (Player.sourceNode s); [|congruence].
      destruct (Player.audioContext s); [|congruence].
      reflexivity.
    - destruct (Player.sourceNode s); [|exact Ep].
      destruct (Player.audioContext s); [reflexivity | exact Ep]. }
  split; [exact P|].
  unfold toggle. destruct (Player.isPlaying s); [exact P | reflexivity].
Qed.

Lemma pause_takes_effect_witness :
  Player.isPlaying
    (Player.pauseAudio
       (Player.run (Player.mounted true 1 1 0) [Player.Advance (3 # 10)]))
  = false.
Proof.
  apply (pause_takes_effect true 1 1 0 [Player.Advance (3 # 10)]).
  - discriminate.
  - split; discriminate.
  - repeat constructor; discriminate.
Defined.

(** ** The player: resuming, progress, and the [ended] event *)





(** While the session plays, each frame displays the cursor plus the
    wall-clock time elapsed since the anchor multiplied by the rate,
    and that is below the duration. *)
Theorem progress_displayed (s0 : Player.t) (rendered : bool)
  (dts : list Q) (dt : Q) :
  let s := Player.frames (Player.playAudio rendered s0) (dts ++ [dt]) in
  Player.isPlaying s = true ->
  Player.currentTime s
  == Player.pausedTime s0
     + Player.total (dts ++ [dt]) * Player.speed s0 /\
  (Player.currentTime s < Player.duration s0)%Q.
Proof.
  cbv zeta. rewrite frames_app.
  pose proof (frames_state s0 rendered dts) as F. cbv zeta in F.
  set (s := Player.frames (Player.playAudio rendered s0) dts) in *.
  unfold Player.frame, Player.updateProgress, Player.advance.
  cbn [Player.isPlaying Player.audioContext Player.startTime
       Player.pausedTime Player.speed Player.duration].
  destruct F
    as [(Hp & _) | (Hp & Hc & Hr & Hd & _ & _ & now & Hn & He)].
  - rewrite Hp. cbn [Player.isPlaying]. intro H. congruence.
  - rewrite Hp, Hn, Hc, Hr, Hd. cbn [option_map].
    set (bp := (Player.pausedTime s0
                + (now + dt - Player.startTime s) * Player.speed s0)%Q).
    assert (E : bp == Player.pausedTime s0
                      + Player.total (dts ++ [dt]) * Player.speed s0).
    { subst bp. rewrite total_app, <- He. ring. }
    destruct (JS.Qlt_bool bp (Player.duration s0)) eqn:L;
      cbn [Player.isPlaying Player.currentTime]; intro H;
      [|discriminate H].
    apply Qlt_bool_true in L. unfold JS.Math_min.
    replace (JS.Qlt_bool (Player.duration s0) bp) with false
      by (symmetry; apply Qlt_bool_false; lra).
    split; [exact E | exact L].
Qed.

Lemma progress_displayed_witness :
  Player.currentTime
    (Player.frames (Player.playAudio false (Player.mounted false 2 2 0))
       [1 # 4; 1 # 4])
  == 1.
Proof.
  destruct (progress_displayed (Player.mounted false 2 2 0) false
              [1 # 4] (1 # 4) eq_refl) as [H _].
  rewrite H. reflexivity.
Defined.

Lemma keeps_source_step (s : Player.t) (e : Player.event) (n : Player.SourceNode) :
  keeps_source e ->
  Player.sourceNode s = Some n ->
  exists n',
    Player.sourceNode (Player.step s e) = Some n' /\
    Player.onended_isPlaying n' = Player.onended_isPlaying n.
Proof.
  intros Hk Hs.
  destruct e as [ | | | | | captured | dt | r]; cbn [Player.step];
    try contradiction.
  - unfold Player.pauseAudio. rewrite Hs.
    destruct (Player.audioContext s);
      [eexists; split; reflexivity | exists n; split; [exact Hs | reflexivity]].
  - unfold Player.stopAudio. cbn [Player.sourceNode]. rewrite Hs.
    eexists. split; reflexivity.
  - unfold Player.updateProgress.
    destruct (Player.isPlaying s); [|exists n; split; [exact Hs | reflexivity]].
    destruct (Player.audioContext s);
      [|exists n; split; [exact Hs | reflexivity]].
    destruct (JS.Qlt_bool _ _); cbn [Player.sourceNode];
      exists n; split; [exact Hs | reflexivity | exact Hs | reflexivity].
  - unfold Player.onended. destruct captured; cbn [Player.sourceNode];
      exists n; split; [exact Hs | reflexivity | exact Hs | reflexivity].
  - unfold Player.advance. cbn [Player.sourceNode].
    exists n; split; [exact Hs | reflexivity].
  - unfold Player.set_speed. cbn [Player.sourceNode].
    exists n; split; [exact Hs | reflexivity].
Qed.

(** A source started with the play button (pressed while not playing)
    does nothing when it ends: its [onended] handler reads the
    [isPlaying] of the render it was created in, which is false.
    Whatever follows short of another [playAudio], the [ended] event
    leaves the state as it is, so the end of the buffer is noticed by
    the frame callback only. *)
Theorem ended_is_inert (s : Player.t) (es : list Player.event) :
  Player.isPlaying s = false ->
  Forall keeps_source es ->
  ended_event (Player.run (toggle s) es) = Player.run (toggle s) es.
Proof.
  intros Hp Hes. unfold toggle. rewrite Hp.
  assert (G : exists n,
             Player.sourceNode (Player.run (Player.playAudio false s) es)
             = Some n /\ Player.onended_isPlaying n = false).
  { assert (G0 : exists n,
               Player.sourceNode (Player.playAudio false s) = Some n /\
               Player.onended_isPlaying n = false)
      by (eexists; split; reflexivity).
    revert G0. generalize (Player.playAudio false s).
    induction Hes as [|e es He _ IH]; intros s1 (n & Hn & Hf).
    - exists n. split; assumption.
    - cbn [Player.run fold_left]. apply IH.
      destruct (keeps_source_step s1 e n He Hn) as (n' & Hn' & Hf').
      exists n'. split; [exact Hn' | congruence]. }
  destruct G as (n & Hn & Hf).
  unfold ended_event. rewrite Hn, Hf. reflexivity.
Qed.

Lemma ended_is_inert_witness :
  let s := Player.run (toggle (Player.mounted false 1 1 0))
             [Player.Advance 2] in
  ended_event s = s /\ Player.isPlaying s = true.
Proof.
  split; [|reflexivity].
  apply (ended_is_inert (Player.mounted false 1 1 0) [Player.Advance 2]).
  - reflexivity.
  - repeat constructor.
Defined.

(** After a restart pressed while playing, the new source's handler
    reads [isPlaying] as true.  The [ended] event that a later pause
    causes is then taken for the end of the buffer: it resets to 0 the
    cursor that the pause had stored. *)
Theorem pause_after_restart_is_lost (s : Player.t) (t : Q) :
  Player.isPlaying s = true ->
  let paused :=
    Player.pauseAudio (Player.advance t (Player.restart s)) in
  ((0 <= t * Player.speed s <= Player.audioBuffer_duration s)%Q ->
   Player.pausedTime paused == t * Player.speed s) /\
  Player.pausedTime (ended_event paused) = 0%Q /\
  Player.state (ended_event paused) = Player.Stopped.
Proof.
  intros Hp. cbv zeta.
  unfold ended_event, Player.pauseAudio, Player.advance, Player.restart,
    Player.playAudio, Player.stopAudio.
  rewrite Hp.
  cbn [Player.sourceNode Player.audioContext Player.startTime
       Player.pausedTime Player.speed Player.audioBuffer_duration
       option_map Player.stop_source Player.onended_isPlaying
       Player.onended].
  split; [|split; reflexivity].
  intros [H1 H2].
  set (now := match Player.audioContext s with
              | Some c => c
              | None => 0%Q
              end).
  assert (E : 0 + (now + t - now) * Player.speed s == t * Player.speed s)
    by ring.
  destruct (JS.Qlt_bool _ _) eqn:L.
  - apply Qlt_bool_true in L. rewrite E in L. lra.
  - exact E.
Qed.

Lemma pause_after_restart_is_lost_witness :
  let playing := Player.playAudio false (Player.mounted false 2 1 0) in
  Player.pausedTime
    (ended_event
       (Player.pauseAudio (Player.advance (1 # 2) (Player.restart playing))))
  = 0%Q.
Proof.
  apply (pause_after_restart_is_lost
           (Player.playAudio false (Player.mounted false 2 1 0)) (1 # 2)).
  reflexivity.
Defined.

(** ** [formatTime] *)

Lemma Qfloor_unique (q : Q) (z : Z) :
  (inject_Z z <= q)%Q -> (q < inject_Z z + 1)%Q -> Qfloor q = z.
Proof.
  intros H1 H2.
  pose proof (Qfloor_le q) as F1. pose proof (Qlt_floor q) as F2.
  rewrite inject_Z_plus in F2. change (inject_Z 1) with 1%Q in F2.
  assert (A : (inject_Z z < inject_Z (Qfloor q + 1))%Q).
  { rewrite inject_Z_plus. change (inject_Z 1) with 1%Q. lra. }
  assert (B : (inject_Z (Qfloor q) < inject_Z (z + 1))%Q).
  { rewrite inject_Z_plus. change (inject_Z 1) with 1%Q. lra. }
  apply inject_Z_lt_inv in A. apply inject_Z_lt_inv in B. lia.
Qed.

Lemma Qfloor_div60 (t : Q) : Qfloor (t / 60) = Qfloor t / 60.
Proof.
  pose proof (Qfloor_le (t / 60)) as F1.
  pose proof (Qlt_floor (t / 60)) as F2.
  rewrite inject_Z_plus in F2. change (inject_Z 1) with 1%Q in F2.
  set (k := Qfloor (t / 60)) in *.
  assert (E : t == 60 * (t / 60)) by (field).
  assert (L1 : (inject_Z (60 * k) <= t)%Q).
  { rewrite inject_Z_mult. change (inject_Z 60) with 60%Q. lra. }
  assert (L2 : (t < inject_Z (60 * k + 60))%Q).
  { rewrite inject_Z_plus, inject_Z_mult. change (inject_Z 60) with 60%Q.
    lra. }
  assert (M1 : 60 * k <= Qfloor t).
  { rewrite <- (Qfloor_Z (60 * k)). apply Qfloor_resp_le. exact L1. }
  assert (M2 : Qfloor t < 60 * k + 60).
  { apply inject_Z_lt_inv.
    apply Qle_lt_trans with t; [apply Qfloor_le | exact L2]. }
  apply (Z.div_unique (Qfloor t) 60 k (Qfloor t - 60 * k)); lia.
Qed.

Lemma Qfloor_rem60 (t : Q) :
  (0 <= t)%Q -> Qfloor (rem60 t) = Qfloor t mod 60.
Proof.
  intro H. unfold rem60.
  assert (H60 : (0 <= t / 60)%Q).
  { apply Qle_shift_div_l; [reflexivity | lra]. }
  rewrite (trunc_nonneg _ H60), Qfloor_div60.
  set (k := Qfloor t / 60).
  pose proof (Qfloor_le t) as F1. pose proof (Qlt_floor t) as F2.
  rewrite inject_Z_plus in F2. change (inject_Z 1) with 1%Q in F2.
  rewrite Z.mod_eq by lia. fold k.
  apply Qfloor_unique.
  - unfold Z.sub. rewrite inject_Z_plus, inject_Z_opp, inject_Z_mult.
    change (inject_Z 60) with 60%Q. lra.
  - unfold Z.sub. rewrite inject_Z_plus, inject_Z_opp, inject_Z_mult.
    change (inject_Z 60) with 60%Q. lra.
Qed.

Lemma two_digits (n : nat) :
  (n < 60)%nat ->
  padStart2 (toString (Z.of_nat n))
  = String (digit (Z.of_nat n / 10))
      (String (digit (Z.of_nat n mod 10)) EmptyString).
Proof.
  intro H.
  assert (A : forallb
                (fun n =>
                   String.eqb (padStart2 (toString (Z.of_nat n)))
                     (String (digit (Z.of_nat n / 10))
                        (String (digit (Z.of_nat n mod 10)) EmptyString)))
                (seq 0 60) = true) by (vm_compute; reflexivity).
  rewrite forallb_forall in A.
  apply String.eqb_eq. apply A. apply in_seq. lia.
Qed.

(** For a time that is not negative and below 2^53, [formatTime] prints
    the whole seconds [n] of the time as [n / 60], a colon and
    [n mod 60] in exactly two digits: minutes are not folded into hours,
    and the seconds are padded with a zero below ten. *)
Theorem formatTime_layout (t : Q) :
  (0 <= t)%Q -> (t < inject_Z (2 ^ 53))%Q ->
  let n := Qfloor t in
  formatTime t
  = (toString (n / 60) ++ ":"
     ++ String (digit (n mod 60 / 10))
          (String (digit (n mod 60 mod 10)) EmptyString))%string.
Proof.
  intros H _ n. unfold formatTime. cbv zeta.
  rewrite Qfloor_div60, (Qfloor_rem60 t H). fold n.
  do 2 f_equal.
  assert (R : 0 <= n mod 60 < 60) by (apply Z.mod_pos_bound; lia).
  rewrite <- (Z2Nat.id (n mod 60)) by lia.
  apply two_digits. lia.
Qed.

Lemma formatTime_layout_witness : formatTime (367 # 2) = "3:03"%string.
Proof.
  rewrite (formatTime_layout (367 # 2)) by (discriminate || reflexivity).
  reflexivity.
Defined.

(** ** [generateSpeech] *)

Lemma find_first {A : Type} (f : A -> bool) (l : list A) (x : A) :
  find f l = Some x ->
  exists pre post,
    l = pre ++ x :: post /\ f x = true /\
    Forall (fun y => f y = false) pre.
Proof.
  induction l as [|a l IH]; intro H; cbn [find] in H.
  - discriminate H.
  - destruct (f a) eqn:E.
    + injection H as <-. exists [], l. repeat split; [exact E | constructor].
    + destruct (IH H) as (pre & post & -> & Hx & Hpre).
      exists (a :: pre), post. repeat split; [exact Hx|].
      constructor; assumption.
Qed.

(** [generateSpeech] never returns an empty string.  What it returns is
    the data of the first part that carries inline data, in the first
    candidate of the answer; if that part has no data the call fails,
    whatever the later parts hold.  Without an API key it fails with
    the missing-key message whatever the service would answer, and an
    error of the service is passed on as it is. *)
Theorem generateSpeech_result (API_KEY : string)
  (generateContent : string -> VoiceName -> result Gemini.Response)
  (text : string) (voiceName : VoiceName) :
  (forall d,
     Gemini.generateSpeech API_KEY generateContent text voiceName = Ok d ->
     API_KEY <> ""%string /\ d <> ""%string /\
     exists response c cs ct pre p post,
       generateContent text voiceName = Ok response /\
       Gemini.candidates response = Some (c :: cs) /\
       Gemini.content c = Some ct /\
       Gemini.parts ct = Some (pre ++ p :: post) /\
       Forall (fun q => Gemini.inlineData q = None) pre /\
       Gemini.inlineData p = Some (Gemini.mkInline (Some d))) /\
  (API_KEY = ""%string ->
   Gemini.generateSpeech API_KEY generateContent text voiceName
   = Err (ServiceError Gemini.missing_key)) /\
  (forall e,
     API_KEY <> ""%string -> generateContent text voiceName = Err e ->
     Gemini.generateSpeech API_KEY generateContent text voiceName = Err e).
Proof.
  split; [|split].
  - intros d H. unfold Gemini.generateSpeech in H.
    destruct (String.length API_KEY =? 0)%nat eqn:K; [discriminate H|].
    destruct (generateContent text voiceName) as [response | e] eqn:G;
      [|discriminate H].
    cbn [bind] in H. unfold Gemini.first_parts in H.
    destruct (Gemini.candidates response) as [[|c cs]|] eqn:C;
      try discriminate H.
    destruct (Gemini.content c) as [ct|] eqn:Ct; [|discriminate H].
    destruct (Gemini.parts ct) as [ps|] eqn:P; [|discriminate H].
    destruct (Gemini.find_audio ps) as [p|] eqn:F; [|discriminate H].
    destruct (Gemini.inlineData p) as [[[d'|]]|] eqn:I;
      cbn [Gemini.data] in H; try discriminate H.
    destruct (String.length d' =? 0)%nat eqn:D; [discriminate H|].
    injection H as <-.
    split; [|split].
    + intros ->. simpl in K. discriminate K.
    + intros ->. simpl in D. discriminate D.
    + unfold Gemini.find_audio in F. apply find_first in F.
      destruct F as (pre & post & -> & _ & Hpre).
      exists response, c, cs, ct, pre, p, post.
      repeat split; try assumption.
      apply Forall_impl with (2 := Hpre). intros q Hq.
      destruct (Gemini.inlineData q); [discriminate Hq | reflexivity].
  - intros ->. reflexivity.
  - intros e K G. unfold Gemini.generateSpeech.
    destruct API_KEY as [|a k]; [congruence|]. cbn [String.length Nat.eqb].
    rewrite G. reflexivity.
Qed.

(** ** The bars of the visualizer *)

Lemma draw_bars_nth (h bw : Q) (data : list Z) :
  forall (x : Q) (i : nat) (v : Z),
  nth_error data i = Some v ->
  exists r,
    nth_error (draw_bars h bw data x) i = Some r /\
    rect_x r == x + inject_Z (Z.of_nat i) * (bw + 1) /\
    rect_w r = bw /\
    rect_h r = (inject_Z v / 2)%Q /\
    rect_y r = (h - inject_Z v / 2)%Q.
Proof.
  induction data as [|a data IH]; intros x i v H.
  - destruct i; discriminate H.
  - destruct i as [|i]; cbn [nth_error draw_bars] in *.
    + injection H as <-. eexists. split; [reflexivity|].
      cbn [rect_x rect_w rect_h rect_y]. repeat split.
      change (inject_Z (Z.of_nat 0)) with 0%Q. ring.
    + destruct (IH (x + (bw + 1))%Q i v H) as (r & Hr & Hx & Hrest).
      exists r. split; [exact Hr|]. split; [|exact Hrest].
      rewrite Hx, Nat2Z.inj_succ. unfold Z.succ.
      rewrite inject_Z_plus. change (inject_Z 1) with 1%Q. ring.
Qed.

Lemma draw_bars_length (h bw : Q) (data : list Z) (x : Q) :
  Datatypes.length (draw_bars h bw data x) = Datatypes.length data.
Proof.
  revert x. induction data as [|a data IH]; intro x; cbn [draw_bars].
  - reflexivity.
  - cbn [Datatypes.length]. now rewrite IH.
Qed.

(** One bar per frequency bin.  Bar [i] starts at [i * (barWidth + 1)]
    with [barWidth = width / bins * 2.5], so that consecutive bars are
    one pixel apart; it is half the bin's value high and stands on the
    bottom of the canvas. *)
Theorem bars_layout (width height : Q) (data : list Z) :
  let barWidth :=
    (width / inject_Z (Z.of_nat (Datatypes.length data)) * (5 # 2))%Q in
  Datatypes.length (draw width height data) = Datatypes.length data /\
  forall i v, nth_error data i = Some v ->
    exists r,
      nth_error (draw width height data) i = Some r /\
      rect_x r == inject_Z (Z.of_nat i) * (barWidth + 1) /\
      rect_w r = barWidth /\
      rect_h r == inject_Z v / 2 /\
      rect_y r + rect_h r == height.
Proof.
  intro barWidth. unfold draw. cbv zeta. fold barWidth.
  split; [apply draw_bars_length|].
  intros i v H.
  destruct (draw_bars_nth height barWidth data 0 i v H)
    as (r & Hr & Hx & Hw & Hh & Hy).
  exists r. split; [exact Hr|]. split; [rewrite Hx; ring|].
  split; [exact Hw|]. split; [rewrite Hh; reflexivity|].
  rewrite Hy, Hh. ring.
Qed.

(** On the canvas of the component (600 by 100) with the 128 bins of an
    FFT of size 256, the bars are wider than their share of the canvas:
    the bars of the bins from 48 on start at or beyond the right edge,
    and a bin value above 200 gives a bar taller than the canvas. *)
Theorem bars_beyond_canvas (data : list Z) (i : nat) (v : Z) (r : rect) :
  Datatypes.length data = 128%nat ->
  nth_error data i = Some v ->
  nth_error (draw 600 100 data) i = Some r ->
  ((48 <= i)%nat -> (600 <= rect_x r)%Q) /\
  (200 < v -> (rect_y r < 0)%Q).
Proof.
  intros Hl Hv Hr. unfold draw in Hr. cbv zeta in Hr. rewrite Hl in Hr.
  destruct (draw_bars_nth 100
              (600 / inject_Z (Z.of_nat 128) * (5 # 2))%Q data 0 i v Hv)
    as (r' & Hr' & Hx & _ & _ & Hy).
  rewrite Hr in Hr'. injection Hr' as <-.
  split; intro H.
  - rewrite Hx.
    assert (A : (inject_Z 48 <= inject_Z (Z.of_nat i))%Q)
      by (rewrite <- Zle_Qle; lia).
    change (inject_Z 48) with 48%Q in A.
    assert (B : 600 / inject_Z (Z.of_nat 128) * (5 # 2) == 375 # 32)
      by reflexivity.
    rewrite B. lra.
  - rewrite Hy.
    assert (A : (inject_Z 200 < inject_Z v)%Q) by (rewrite <- Zlt_Qlt; lia).
    change (inject_Z 200) with 200%Q in A.
    assert (E : inject_Z v / 2 == inject_Z v * (1 # 2)) by (field).
    rewrite E. lra.
Qed.

Lemma bars_beyond_canvas_witness :
  exists r,
    nth_error (draw 600 100 (repeat 255 128)) 48 = Some r /\
    (600 <= rect_x r)%Q /\ (rect_y r < 0)%Q.
Proof.
  destruct (draw_bars_nth 100
              (600 / inject_Z (Z.of_nat 128) * (5 # 2))%Q
              (repeat 255 128) 0 48 255 eq_refl) as (r & Hr & _).
  exists r.
  assert (Hr' : nth_error (draw 600 100 (repeat 255 128)) 48 = Some r)
    by exact Hr.
  destruct (bars_beyond_canvas (repeat 255 128) 48 255 r
              eq_refl eq_refl Hr') as [H1 H2].
  split; [exact Hr'|]. split; [apply H1; lia | apply H2; lia].
Defined.
